(** * brpc::SimpleDataPool (src/brpc/simple_data_pool.h)

    A shallow embedding of the pool of reusable [void*] session data and
    the properties of its operations.

    Conventions of the embedding.
    - [unsigned] is a 32-bit integer, kept as a [Z] in [0, 2^32) with the
      wrap-around of every arithmetic operation written out ([wrap]).
      [size_t] is 64 bits wide, so [new_cap * sizeof(void* )] does not wrap.
    - A [void*] handle is its address, a [Z]; [NULL] is [0].
    - The buffer [_pool] is [None] when the pointer is [NULL] and otherwise
      the list of the slots of the allocation it points to.  Indexing
      outside the allocation, and calling through a null [_factory], is
      undefined behaviour in C++; the embedding stops there with a [Fault].
    - [malloc] and the factory are the environment: an [environment] fixes
      what each successive call answers, and the [trace] records the calls
      made on factories.
    - The operations run one at a time (no interleaving), so taking and
      releasing [_mutex] has no effect and is left out; a check that the
      source repeats under the lock is repeated here. *)

From Stdlib Require Import ZArith Lia List Bool.
From stdpp Require Import base tactics option list.

Local Open Scope Z_scope.

(** ** Machine integers and handles *)

Definition UINT_MOD : Z := 2 ^ 32.

(** Reduction of an [unsigned] result modulo [2^32]. *)
Definition wrap (x : Z) : Z := x mod UINT_MOD.

Definition is_unsigned (x : Z) : Prop := 0 <= x < UINT_MOD.

(** [void*]. *)
Definition handle : Type := Z.
Definition NULL : handle := 0.

(** The identity of a [DataFactory] object; a [const DataFactory*] is an
    [option DataFactory], [None] being the null pointer. *)
Definition DataFactory : Type := nat.

(** ** The object and its surroundings *)

Record SimpleDataPool : Type := mkPool {
  _capacity : Z;
  _size : Z;
  _ncreated : Z;
  _pool : option (list handle);
  _factory : option DataFactory
}.

(** [SimpleDataPool::Stat]. *)
Record Stat : Type := mkStat { nfree : Z; ncreated : Z }.

(** What the surroundings answer: whether the [k]-th call of [malloc]
    returns memory, what the memory it returns holds in slot [i] before
    that slot is written, and what the [k]-th call of [CreateData] returns
    when it is made on factory [f]. *)
Record environment : Type := mkEnv {
  malloc_ok : nat -> bool;
  uninit : nat -> nat -> handle;
  CreateData : DataFactory -> nat -> handle
}.

(** A call made on a factory, with the value it returned or received. *)
Inductive event : Type :=
| CreateDataCall (f : DataFactory) (r : handle)
| DestroyDataCall (f : DataFactory) (h : handle).

Record world : Type := mkWorld {
  self : SimpleDataPool;
  mallocs : nat;
  creates : nat;
  trace : list event
}.

Inductive fault : Type :=
| NullFactory
| NullPool
| OutOfBounds (index slots : Z).

(** The result of running a piece of code: it completes with a value, or
    it stops at undefined behaviour; both carry the world reached. *)
Inductive outcome (A : Type) : Type :=
| Done (a : A) (w : world)
| Fault (f : fault) (w : world).
Arguments Done {A} a w.
Arguments Fault {A} f w.

Definition M (A : Type) : Type := world -> outcome A.

Definition ret {A} (a : A) : M A := fun w => Done a w.

Definition bind {A B} (c : M A) (k : A -> M B) : M B :=
  fun w => match c w with
           | Done a w' => k a w'
           | Fault f w' => Fault f w'
           end.

Declare Scope pool_scope.
Delimit Scope pool_scope with pool.
Notation "x <- c ;; k" := (bind c (fun x => k))
  (at level 100, c at next level, right associativity) : pool_scope.
Notation "c ;; k" := (bind c (fun _ => k))
  (at level 100, right associativity) : pool_scope.
Local Open Scope pool_scope.

Definition abort {A} (f : fault) : M A := fun w => Fault f w.

Definition this : M SimpleDataPool := fun w => Done (self w) w.

Definition update (g : SimpleDataPool -> SimpleDataPool) : M unit :=
  fun w => Done tt (mkWorld (g (self w)) (mallocs w) (creates w) (trace w)).

Definition set_capacity (c : Z) (p : SimpleDataPool) : SimpleDataPool :=
  mkPool c (_size p) (_ncreated p) (_pool p) (_factory p).
Definition set_size (s : Z) (p : SimpleDataPool) : SimpleDataPool :=
  mkPool (_capacity p) s (_ncreated p) (_pool p) (_factory p).
Definition set_ncreated (c : Z) (p : SimpleDataPool) : SimpleDataPool :=
  mkPool (_capacity p) (_size p) c (_pool p) (_factory p).
Definition set_pool (b : option (list handle)) (p : SimpleDataPool) : SimpleDataPool :=
  mkPool (_capacity p) (_size p) (_ncreated p) b (_factory p).

Definition log (e : event) : M unit :=
  fun w => Done tt (mkWorld (self w) (mallocs w) (creates w) (trace w ++ [e])).

Section Pool.

Variable E : environment.

(** [(void** )malloc(slots * sizeof(void* ))]: [None] is [NULL]. *)
Definition malloc (slots : Z) : M (option (list handle)) :=
  fun w =>
    let w' := mkWorld (self w) (S (mallocs w)) (creates w) (trace w) in
    if malloc_ok E (mallocs w)
    then Done (Some (map (uninit E (mallocs w)) (seq 0 (Z.to_nat slots)))) w'
    else Done None w'.

(** [memcpy(dst, src, n * sizeof(void* ))]. *)
Definition memcpy (dst src : list handle) (n : Z) : M (list handle) :=
  if Z.of_nat (length src) <? n then abort (OutOfBounds n (Z.of_nat (length src)))
  else if Z.of_nat (length dst) <? n then abort (OutOfBounds n (Z.of_nat (length dst)))
  else ret (take (Z.to_nat n) src ++ drop (Z.to_nat n) dst).

(** [fp->CreateData()]. *)
Definition call_CreateData (fp : option DataFactory) : M handle :=
  match fp with
  | None => abort NullFactory
  | Some f =>
      fun w =>
        let r := CreateData E f (creates w) in
        Done r (mkWorld (self w) (mallocs w) (S (creates w))
                        (trace w ++ [CreateDataCall f r]))
  end.

(** [fp->DestroyData(h)]. *)
Definition call_DestroyData (fp : option DataFactory) (h : handle) : M unit :=
  match fp with
  | None => abort NullFactory
  | Some f => log (DestroyDataCall f h)
  end.

(** [buf[i]] read. *)
Definition load (buf : option (list handle)) (i : Z) : M handle :=
  match buf with
  | None => abort NullPool
  | Some l =>
      if (0 <=? i) && (i <? Z.of_nat (length l))
      then match l !! Z.to_nat i with
           | Some h => ret h
           | None => abort (OutOfBounds i (Z.of_nat (length l)))
           end
      else abort (OutOfBounds i (Z.of_nat (length l)))
  end.

(** [_pool[i] = h]. *)
Definition store (i : Z) (h : handle) : M unit :=
  p <- this ;;
  match _pool p with
  | None => abort NullPool
  | Some l =>
      if (0 <=? i) && (i <? Z.of_nat (length l))
      then update (set_pool (Some (<[Z.to_nat i := h]> l)))
      else abort (OutOfBounds i (Z.of_nat (length l)))
  end.

(** [_ncreated.fetch_add(1, memory_order_relaxed)]. *)
Definition ncreated_fetch_add_1 : M unit :=
  update (fun p => set_ncreated (wrap (_ncreated p + 1)) p).

(** [_pool[_size++] = data]. *)
Definition push (data : handle) : M unit :=
  p <- this ;;
  update (set_size (wrap (_size p + 1))) ;;
  store (_size p) data.

(** [return _pool[--_size]]. *)
Definition pop : M handle :=
  p <- this ;;
  update (set_size (wrap (_size p - 1))) ;;
  load (_pool p) (wrap (_size p - 1)).

(** The constructor: [SimpleDataPool(factory)]. *)
Definition SimpleDataPool_new (factory : option DataFactory) : SimpleDataPool :=
  mkPool 0 0 0 None factory.

(** The loop of [Reset]:
    [for (unsigned i = 0; i < saved_size; ++i) saved_factory->DestroyData(saved_pool[i])],
    with [k] the number of iterations that remain, [saved_size - i]. *)
Fixpoint Reset_loop (saved_factory : option DataFactory)
    (saved_pool : option (list handle)) (i : Z) (k : nat) : M unit :=
  match k with
  | O => ret tt
  | S k' =>
      h <- load saved_pool i ;;
      call_DestroyData saved_factory h ;;
      Reset_loop saved_factory saved_pool (i + 1) k'
  end.

Definition Reset (factory : option DataFactory) : M unit :=
  p <- this ;;
  let saved_size := _size p in
  let saved_pool := _pool p in
  let saved_factory := _factory p in
  update (fun _ => mkPool 0 0 0 None factory) ;;
  match saved_pool with
  | Some _ =>
      match saved_factory with
      | Some _ => Reset_loop saved_factory saved_pool 0 (Z.to_nat saved_size)
      | None => ret tt
      end
      (* free(saved_pool) *)
  | None => ret tt
  end.

(** The destructor, up to [pthread_mutex_destroy]. *)
Definition SimpleDataPool_delete : M unit := Reset None.

(** Line 94: [std::max(_capacity * 3 / 2, n)]. *)
Definition Reserve_new_cap (capacity n : Z) : Z :=
  Z.max (wrap (capacity * 3) / 2) n.

(** Line 137: [_capacity == 0 ? 128 : (_capacity * 3 / 2)]. *)
Definition Return_new_cap (capacity : Z) : Z :=
  if capacity =? 0 then 128 else wrap (capacity * 3) / 2.

(** [if (_pool) { memcpy(new_pool, _pool, _capacity * sizeof(void* )); free(_pool); }] *)
Definition move_slots (new_pool : list handle) (p : SimpleDataPool) : M (list handle) :=
  match _pool p with
  | Some old => memcpy new_pool old (_capacity p)
  | None => ret new_pool
  end.

(** The loop of [Reserve], lines 107-114, with [k] the number of
    iterations that remain if no [break] is taken, [n - i]. *)
Fixpoint Reserve_loop (k : nat) : M unit :=
  match k with
  | O => ret tt
  | S k' =>
      p <- this ;;
      data <- call_CreateData (_factory p) ;;
      if data =? NULL then ret tt
      else
        ncreated_fetch_add_1 ;;
        push data ;;
        Reserve_loop k'
  end.

Definition Reserve (n : Z) : M unit :=
  p0 <- this ;;
  if _capacity p0 >=? n then ret tt
  else
    p <- this ;;
    if _capacity p >=? n then ret tt
    else
      let new_cap := Reserve_new_cap (_capacity p) n in
      a <- malloc new_cap ;;
      match a with
      | None => ret tt
      | Some new_pool =>
          new_pool' <- move_slots new_pool p ;;
          let i := _capacity p in
          update (set_capacity new_cap) ;;
          update (set_pool (Some new_pool')) ;;
          Reserve_loop (Z.to_nat (n - i))
      end.

(** Lines 124-128 of [Borrow], reached when the bank is empty. *)
Definition Borrow_create : M handle :=
  p <- this ;;
  data <- call_CreateData (_factory p) ;;
  (if data =? NULL then ret tt else ncreated_fetch_add_1) ;;
  ret data.

Definition Borrow : M handle :=
  p0 <- this ;;
  if negb (_size p0 =? 0) then
    p <- this ;;
    if negb (_size p =? 0) then pop else Borrow_create
  else Borrow_create.

Definition Return (data : handle) : M unit :=
  if data =? NULL then ret tt
  else
    p <- this ;;
    if _capacity p =? _size p then
      let new_cap := Return_new_cap (_capacity p) in
      a <- malloc new_cap ;;
      match a with
      | None => call_DestroyData (_factory p) data
      | Some new_pool =>
          new_pool' <- move_slots new_pool p ;;
          update (set_capacity new_cap) ;;
          update (set_pool (Some new_pool')) ;;
          push data
      end
    else push data.

Definition stat : M Stat :=
  p <- this ;;
  ret (mkStat (_size p) (_ncreated p)).

End Pool.

(** ** Vocabulary of the properties *)

(** The handles in the bank: slots [[0, _size)] of the buffer. *)
Definition banked (p : SimpleDataPool) : list handle :=
  match _pool p with
  | Some l => take (Z.to_nat (_size p)) l
  | None => []
  end.

(** The invariant of the data model, [0 <= size <= capacity]. *)
Definition size_within_capacity (p : SimpleDataPool) : Prop :=
  0 <= _size p <= _capacity p.

(** A well-formed pool: the fields are in the range of [unsigned], the
    bank fits the buffer, the buffer has [_capacity] slots (and a null
    buffer has none), and no banked handle is null. *)
Record wf (p : SimpleDataPool) : Prop := mkWf {
  wf_size : size_within_capacity p;
  wf_capacity : _capacity p < UINT_MOD;
  wf_ncreated : is_unsigned (_ncreated p);
  wf_pool : match _pool p with
            | Some l => Z.of_nat (length l) = _capacity p
            | None => _capacity p = 0
            end;
  wf_banked : Forall (fun h => h <> NULL) (banked p)
}.

(** [banks w h w1]: from [w], the handle [h] was put in the bank behind
    the handles already there, giving [w1]. *)
Definition banks (w : world) (h : handle) (w1 : world) : Prop :=
  _size (self w1) = _size (self w) + 1 /\
  banked (self w1) = banked (self w) ++ [h] /\
  _ncreated (self w1) = _ncreated (self w) /\
  _factory (self w1) = _factory (self w) /\
  creates w1 = creates w /\
  trace w1 = trace w /\
  wf (self w1).

(** The handles returned by [k] successive [CreateData] calls on [f], the
    first of which is the [c]-th call made on a factory. *)
Definition created (E : environment) (f : DataFactory) (c k : nat) : list handle :=
  map (CreateData E f) (seq c k).

(** The world in which a run ended. *)
Definition final {A} (o : outcome A) : world :=
  match o with
  | Done _ w => w
  | Fault _ w => w
  end.

(** The world around a pool that has just been constructed. *)
Definition fresh (factory : option DataFactory) : world :=
  mkWorld (SimpleDataPool_new factory) 0 0 [].

(** The number of [CreateData] calls in a trace that produced a handle. *)
Fixpoint successes (t : list event) : Z :=
  match t with
  | [] => 0
  | CreateDataCall _ r :: t' => (if r =? NULL then 0 else 1) + successes t'
  | DestroyDataCall _ _ :: t' => successes t'
  end.

(** [accounts w w']: between [w] and [w'] the trace gained [d] successful
    [CreateData] calls and [_ncreated] moved by [d], as an [unsigned]. *)
Definition accounts (w w' : world) : Prop :=
  exists d,
    0 <= d /\
    successes (trace w') = successes (trace w) + d /\
    wrap (_ncreated (self w')) = wrap (_ncreated (self w) + d) /\
    (is_unsigned (_ncreated (self w)) -> is_unsigned (_ncreated (self w'))).

(** A piece of code that counts the handles it creates, wherever it ends. *)
Definition keeps_count {A} (c : M A) : Prop :=
  forall w, accounts w (final (c w)).

(** Sequences of calls made on one pool. *)
Inductive op : Type :=
| OpReserve (n : Z)
| OpBorrow
| OpReturn (data : handle).

Definition run_op (E : environment) (o : op) : M unit :=
  match o with
  | OpReserve n => Reserve E n
  | OpBorrow => _ <- Borrow E ;; ret tt
  | OpReturn data => Return E data
  end.

Fixpoint run_ops (E : environment) (l : list op) : M unit :=
  match l with
  | [] => ret tt
  | o :: l' => run_op E o ;; run_ops E l'
  end.

(** An environment in which nothing fails: every [malloc] returns memory
    and the [k]-th [CreateData] returns the address [4096 + 16 k]. *)
Definition generous : environment :=
  mkEnv (fun _ => true) (fun _ _ => 57005) (fun _ k => 4096 + 16 * Z.of_nat k).

(** An environment in which [malloc] always fails. *)
Definition exhausted : environment :=
  mkEnv (fun _ => false) (fun _ _ => 57005) (fun _ k => 4096 + 16 * Z.of_nat k).

(** The world around a pool after one handle was borrowed and returned:
    128 slots, one handle banked. *)
Definition one_banked : world :=
  final ((a <- Borrow generous ;; Return generous a) (fresh (Some 7%nat))).

(** The world around a pool whose two slots are both banked. *)
Definition two_banked : world :=
  mkWorld (mkPool 2 2 3 (Some [4096; 4112]) (Some 7%nat)) 1 3 [].

(** The world around a pool after [Reserve 1], two [Borrow]s and the
    [Return] of the handle borrowed first: one slot, one handle banked, and
    the handle borrowed second, [4112], still out. *)
Definition full_of_one : world :=
  mkWorld (mkPool 1 1 2 (Some [4096]) (Some 7%nat)) 1 2
          [CreateDataCall 7%nat 4096; CreateDataCall 7%nat 4112].

(** [2^32 - 1] calls of [Borrow]. *)
Definition many_borrows : list op := replicate (Z.to_nat 4294967295) OpBorrow.

(** ** Vocabulary of the further properties *)

(** [k] calls of [Borrow] in a row, with the handles they returned. *)
Fixpoint Borrow_n (E : environment) (k : nat) : M (list handle) :=
  match k with
  | O => ret []
  | S k' =>
      h <- Borrow E ;;
      hs <- Borrow_n E k' ;;
      ret (h :: hs)
  end.

(** [Return] of each handle of a list, in order. *)
Fixpoint Return_all (E : environment) (hs : list handle) : M unit :=
  match hs with
  | [] => ret tt
  | h :: hs' => Return E h ;; Return_all E hs'
  end.

(** Among the [CreateData] calls number [c], [c + 1], ..., [c + k - 1] on
    [f], how many return a handle before the first one that returns null. *)
Fixpoint leading (E : environment) (f : DataFactory) (c k : nat) : nat :=
  match k with
  | O => O
  | S k' => if CreateData E f c =? NULL then O else S (leading E f (S c) k')
  end.

(** The handles that a sequence of calls passes to [Return]. *)
Fixpoint returned (l : list op) : list handle :=
  match l with
  | [] => []
  | OpReturn data :: l' => data :: returned l'
  | _ :: l' => returned l'
  end.

(** The handles on which a trace has a [DestroyData] call. *)
Fixpoint destroyed (t : list event) : list handle :=
  match t with
  | [] => []
  | DestroyDataCall _ h :: t' => h :: destroyed t'
  | CreateDataCall _ _ :: t' => destroyed t'
  end.

(** A piece of code all of whose runs, wherever they end, relate the world
    they start in to the world they end in by [R]. *)
Definition obeys (R : world -> world -> Prop) {A} (c : M A) : Prop :=
  forall w, R w (final (c w)).

(** [tame ds w w']: from [w] to [w'] the factory pointer is the same, and
    the trace gained only calls on that factory, the [DestroyData] calls
    among them being on a sublist of the handles [ds]. *)
Definition tame (ds : list handle) (w w' : world) : Prop :=
  _factory (self w') = _factory (self w) /\
  exists t,
    trace w' = trace w ++ t /\
    sublist (destroyed t) ds /\
    Forall (fun e => match e with
                     | CreateDataCall f _ | DestroyDataCall f _ =>
                         _factory (self w) = Some f
                     end) t.

(** An environment with memory in which the factory returns two handles
    and null from then on. *)
Definition stingy : environment :=
  mkEnv (fun _ => true) (fun _ _ => 57005)
        (fun _ k => if (k <? 2)%nat then 4096 + 16 * Z.of_nat k else NULL).

(** The world around a pool with three handles banked in five slots. *)
Definition three_banked : world :=
  mkWorld (mkPool 5 3 5 (Some [4096; 4112; 4128; 4144; 4160]) (Some 7%nat)) 1 5 [].

(** * Properties *)

(** ** The code on small inputs *)

Example Reserve_3_on_new_pool :
  Reserve generous 3 (fresh (Some 7%nat)) =
  Done tt (mkWorld (mkPool 3 3 3 (Some [4096; 4112; 4128]) (Some 7%nat)) 1 3
                   [CreateDataCall 7%nat 4096; CreateDataCall 7%nat 4112;
                    CreateDataCall 7%nat 4128]).
Proof. reflexivity. Qed.

Example Borrow_on_new_pool :
  Borrow generous (fresh (Some 7%nat)) =
  Done 4096 (mkWorld (mkPool 0 0 1 None (Some 7%nat)) 0 1 [CreateDataCall 7%nat 4096]).
Proof. reflexivity. Qed.

Example Return_on_new_pool :
  exists w,
    Return generous 8192 (fresh (Some 7%nat)) = Done tt w /\
    _capacity (self w) = 128 /\ _size (self w) = 1 /\ banked (self w) = [8192].
Proof. eexists. split; [vm_compute; reflexivity|]. repeat split. Qed.

Example Return_then_Reserve_192 :
  exists w,
    (Return generous 8192 ;; Reserve generous 130) (fresh (Some 7%nat)) = Done tt w /\
    _capacity (self w) = 192 /\ banked (self w) = [8192; 4096; 4112].
Proof. eexists. split; [vm_compute; reflexivity|]. repeat split. Qed.

Example Reset_NULL_then_Borrow :
  (Reset None ;; Borrow generous) (fresh (Some 7%nat)) = Fault NullFactory (fresh None).
Proof. reflexivity. Qed.

(** ** Arithmetic of [unsigned] *)

Lemma wrap_small x : is_unsigned x -> wrap x = x.
Proof. intros H. apply Z.mod_small. exact H. Qed.

Lemma wrap_range x : is_unsigned (wrap x).
Proof. apply Z.mod_pos_bound. reflexivity. Qed.

Lemma wrap_add_l x k : wrap (wrap x + k) = wrap (x + k).
Proof. unfold wrap. apply Zplus_mod_idemp_l. Qed.

Lemma UINT_MOD_value : UINT_MOD = 4294967296.
Proof. reflexivity. Qed.

Ltac range :=
  unfold is_unsigned, size_within_capacity in *;
  rewrite ?UINT_MOD_value in *; lia.

Lemma half_bounds (x : Z) : 2 * (x / 2) <= x < 2 * (x / 2) + 2.
Proof.
  pose proof (Z.div_mod x 2) as H1. pose proof (Z.mod_pos_bound x 2) as H2. lia.
Qed.

(** ** Running the code one statement at a time *)

Lemma run_bind {A B} (c : M A) (k : A -> M B) (w : world) :
  bind c k w = match c w with
               | Done a w' => k a w'
               | Fault f w' => Fault f w'
               end.
Proof. reflexivity. Qed.

Lemma run_ret {A} (a : A) (w : world) : ret a w = Done a w.
Proof. reflexivity. Qed.

Lemma run_abort {A} (f : fault) (w : world) : @abort A f w = Fault f w.
Proof. reflexivity. Qed.

Lemma run_this (w : world) : this w = Done (self w) w.
Proof. reflexivity. Qed.

Lemma run_update g (w : world) :
  update g w = Done tt (mkWorld (g (self w)) (mallocs w) (creates w) (trace w)).
Proof. reflexivity. Qed.

Lemma run_log e (w : world) :
  log e w = Done tt (mkWorld (self w) (mallocs w) (creates w) (trace w ++ [e])).
Proof. reflexivity. Qed.

Lemma run_malloc (E : environment) (slots : Z) (w : world) :
  malloc E slots w =
  Done (if malloc_ok E (mallocs w)
        then Some (map (uninit E (mallocs w)) (seq 0 (Z.to_nat slots))) else None)
       (mkWorld (self w) (S (mallocs w)) (creates w) (trace w)).
Proof. unfold malloc. destruct (malloc_ok E (mallocs w)); reflexivity. Qed.

Ltac fields :=
  cbn [self mallocs creates trace _capacity _size _ncreated _pool _factory
       set_capacity set_size set_ncreated set_pool final nfree ncreated].

Ltac fields_all :=
  cbn [self mallocs creates trace _capacity _size _ncreated _pool _factory
       set_capacity set_size set_ncreated set_pool final nfree ncreated] in *.

Ltac exec :=
  repeat first
    [ rewrite run_bind | rewrite run_this | rewrite run_update | rewrite run_ret
    | rewrite run_abort | rewrite run_log | progress fields ].

(** ** Slots of the buffer *)

Lemma in_bounds_true (i n : Z) :
  0 <= i < n -> (0 <=? i) && (i <? n) = true.
Proof. intros H. apply andb_true_iff. split; [apply Z.leb_le|apply Z.ltb_lt]; lia. Qed.

Lemma in_bounds_inv (i n : Z) :
  (0 <=? i) && (i <? n) = true -> 0 <= i < n.
Proof.
  intros H. apply andb_true_iff in H as [H1 H2].
  apply Z.leb_le in H1. apply Z.ltb_lt in H2. lia.
Qed.

(** The slots moved by [memcpy] into a larger buffer keep their contents. *)
Lemma take_moved (old new : list handle) (c s : nat) :
  (s <= c)%nat -> (c <= length old)%nat ->
  take s (take c old ++ drop c new) = take s old.
Proof.
  intros Hs Hc. rewrite take_app_le by (rewrite length_take; lia).
  rewrite take_take. f_equal. lia.
Qed.

(** The bank after a handle was stored in the slot behind it. *)
Lemma take_pushed (l : list handle) (s : nat) (h : handle) :
  (s < length l)%nat ->
  take (S s) (<[s := h]> l) = take s l ++ [h].
Proof.
  intros Hs. rewrite (take_S_r _ _ h) by (apply list_lookup_insert_eq; exact Hs).
  rewrite take_insert_ge by lia. reflexivity.
Qed.

Lemma length_fresh (E : environment) (k : nat) (slots : Z) :
  0 <= slots ->
  Z.of_nat (length (map (uninit E k) (seq 0 (Z.to_nat slots)))) = slots.
Proof. intros H. rewrite length_map, length_seq. lia. Qed.

Lemma length_banked (p : SimpleDataPool) :
  wf p -> length (banked p) = Z.to_nat (_size p).
Proof.
  intros [Hs Hc Hn Hp Hb]. unfold banked, size_within_capacity in *.
  destruct (_pool p) as [l|].
  - rewrite length_take. lia.
  - simpl. lia.
Qed.

(** Well-formedness of a pool that is given in full. *)
Ltac closed_wf :=
  constructor; vm_compute;
  [ split; discriminate
  | reflexivity
  | split; [discriminate|reflexivity]
  | reflexivity
  | repeat (constructor; [cbv beta; discriminate|]); constructor ].

Lemma wf_new (factory : option DataFactory) : wf (SimpleDataPool_new factory).
Proof.
  constructor; cbn; try constructor; try reflexivity; try discriminate.
Qed.

(** One more handle created and counted. *)
Lemma created_wf (p : SimpleDataPool) :
  wf p -> wf (set_ncreated (wrap (_ncreated p + 1)) p).
Proof.
  intros [Hs Hc Hn Hp Hb]. constructor; try assumption. apply wrap_range.
Qed.

(** ** [push] and the growth of the buffer *)

(** What [push] does when it completes. *)
Lemma push_Done (data : handle) (w w' : world) :
  push data w = Done tt w' ->
  exists l,
    _pool (self w) = Some l /\
    0 <= _size (self w) < Z.of_nat (length l) /\
    w' = mkWorld (mkPool (_capacity (self w)) (wrap (_size (self w) + 1))
                         (_ncreated (self w))
                         (Some (<[Z.to_nat (_size (self w)) := data]> l))
                         (_factory (self w)))
                 (mallocs w) (creates w) (trace w).
Proof.
  unfold push, store. exec.
  destruct (_pool (self w)) as [l|]; [|discriminate].
  destruct ((0 <=? _size (self w)) && (_size (self w) <? Z.of_nat (length l))) eqn:Hb;
    exec; [|discriminate].
  intros [= <-]. exists l. apply in_bounds_inv in Hb. auto.
Qed.

(** [push] into a slot of the buffer completes. *)
Lemma push_in_bounds (data : handle) (w : world) (l : list handle) :
  _pool (self w) = Some l ->
  0 <= _size (self w) < Z.of_nat (length l) ->
  push data w =
  Done tt (mkWorld (mkPool (_capacity (self w)) (wrap (_size (self w) + 1))
                           (_ncreated (self w))
                           (Some (<[Z.to_nat (_size (self w)) := data]> l))
                           (_factory (self w)))
                   (mallocs w) (creates w) (trace w)).
Proof.
  intros Hp Hs. unfold push, store. exec. rewrite Hp.
  rewrite in_bounds_true by exact Hs. exec. reflexivity.
Qed.

(** [push] on a well-formed pool with a free slot, or whose buffer has
    just been replaced by a larger one. *)
Lemma push_banks (w : world) (l : list handle) (h : handle) :
  _pool (self w) = Some l ->
  0 <= _size (self w) < Z.of_nat (length l) ->
  Z.of_nat (length l) < UINT_MOD ->
  exists w1,
    push h w = Done tt w1 /\
    _size (self w1) = _size (self w) + 1 /\
    _pool (self w1) = Some (<[Z.to_nat (_size (self w)) := h]> l) /\
    banked (self w1) = take (Z.to_nat (_size (self w))) l ++ [h] /\
    _capacity (self w1) = _capacity (self w) /\
    _ncreated (self w1) = _ncreated (self w) /\
    _factory (self w1) = _factory (self w) /\
    mallocs w1 = mallocs w /\ creates w1 = creates w /\ trace w1 = trace w.
Proof.
  intros Hp Hs Hu. eexists. split; [apply (push_in_bounds _ _ l Hp Hs)|].
  unfold banked. fields. rewrite wrap_small by range.
  repeat split; try reflexivity.
  replace (Z.to_nat (_size (self w) + 1)) with (S (Z.to_nat (_size (self w)))) by lia.
  apply take_pushed. lia.
Qed.

(** [push] on a well-formed pool with a free slot. *)
Lemma push_wf (w : world) (h : handle) :
  wf (self w) -> h <> NULL ->
  _size (self w) < _capacity (self w) ->
  exists w1, push h w = Done tt w1 /\ banks w h w1 /\
             _capacity (self w1) = _capacity (self w) /\ mallocs w1 = mallocs w.
Proof.
  intros Hwf Hh Hlt. pose proof Hwf as [Hs Hc Hn Hp Hb].
  unfold size_within_capacity in Hs.
  destruct (_pool (self w)) as [l|] eqn:Hl; [|lia].
  destruct (push_banks w l h Hl) as (w1 & H1 & H2 & H3 & H4 & H5 & H6 & H7 & H8 & H9 & H10);
    [lia|lia|].
  assert (Hbk : banked (self w) = take (Z.to_nat (_size (self w))) l)
    by (unfold banked; rewrite Hl; reflexivity).
  exists w1. split; [exact H1|]. split; [|auto].
  unfold banks. rewrite H2, H4, H6, H7, H9, H10, <- Hbk.
  repeat (split; [reflexivity|]).
  constructor.
  - unfold size_within_capacity. lia.
  - lia.
  - rewrite H6. exact Hn.
  - rewrite H3, length_insert. lia.
  - rewrite H4, <- Hbk. apply Forall_app. split; [exact Hb|].
    constructor; [exact Hh|constructor].
Qed.

(** Agreement of two worlds on what [banks] looks at. *)
Lemma banks_from (w wi : world) (h : handle) (w1 : world) :
  _size (self wi) = _size (self w) ->
  banked (self wi) = banked (self w) ->
  _ncreated (self wi) = _ncreated (self w) ->
  _factory (self wi) = _factory (self w) ->
  creates wi = creates w ->
  trace wi = trace w ->
  banks wi h w1 -> banks w h w1.
Proof.
  intros H1 H2 H3 H4 H5 H6. unfold banks.
  rewrite H1, H2, H3, H4, H5, H6. exact id.
Qed.

(** Moving the slots into a buffer that is at least as large keeps the
    bank. *)
Lemma move_slots_ok (p : SimpleDataPool) (new_pool : list handle) (w : world) :
  wf p ->
  _capacity p <= Z.of_nat (length new_pool) ->
  exists l',
    move_slots new_pool p w = Done l' w /\
    length l' = length new_pool /\
    take (Z.to_nat (_size p)) l' = banked p.
Proof.
  intros [Hs Hc Hn Hp Hb] Hle. unfold move_slots, banked, memcpy.
  unfold size_within_capacity in Hs.
  destruct (_pool p) as [old|].
  - destruct (Z.ltb_spec (Z.of_nat (length old)) (_capacity p)); [lia|].
    destruct (Z.ltb_spec (Z.of_nat (length new_pool)) (_capacity p)); [lia|].
    exec. eexists. split; [reflexivity|]. split.
    + rewrite length_app, length_take, length_drop. lia.
    + apply take_moved; lia.
  - exec. exists new_pool. split; [reflexivity|]. split; [reflexivity|].
    replace (_size p) with 0 by lia. reflexivity.
Qed.

(** Moving the slots into a smaller buffer writes past its end. *)
Lemma move_slots_overflow (p : SimpleDataPool) (new_pool : list handle) (w : world) :
  wf p ->
  Z.of_nat (length new_pool) < _capacity p ->
  move_slots new_pool p w =
  Fault (OutOfBounds (_capacity p) (Z.of_nat (length new_pool))) w.
Proof.
  intros [Hs Hc Hn Hp Hb] Hlt. unfold move_slots, memcpy.
  destruct (_pool p) as [old|]; [|lia].
  destruct (Z.ltb_spec (Z.of_nat (length old)) (_capacity p)); [lia|].
  destruct (Z.ltb_spec (Z.of_nat (length new_pool)) (_capacity p)); [|lia].
  reflexivity.
Qed.

Lemma move_slots_world (new_pool : list handle) (p : SimpleDataPool)
    (w w' : world) (l : list handle) :
  move_slots new_pool p w = Done l w' -> w' = w.
Proof.
  unfold move_slots, memcpy. destruct (_pool p); exec; [|congruence].
  destruct (_ <? _); exec; [discriminate|].
  destruct (_ <? _); exec; [discriminate|congruence].
Qed.

(** The world in which [Return] pushes after it replaced the buffer. *)
Lemma grown_wf (p : SimpleDataPool) (new_cap : Z) (l' : list handle) :
  wf p ->
  _capacity p <= new_cap < UINT_MOD ->
  Z.of_nat (length l') = new_cap ->
  take (Z.to_nat (_size p)) l' = banked p ->
  wf (set_pool (Some l') (set_capacity new_cap p)) /\
  banked (set_pool (Some l') (set_capacity new_cap p)) = banked p.
Proof.
  intros [Hs Hc Hn Hp Hb] Hcap Hlen Htake. unfold size_within_capacity in Hs.
  assert (Hbk : banked (set_pool (Some l') (set_capacity new_cap p)) = banked p)
    by exact Htake.
  split; [|exact Hbk].
  constructor; fields.
  - unfold size_within_capacity. fields. lia.
  - lia.
  - exact Hn.
  - exact Hlen.
  - rewrite Hbk. exact Hb.
Qed.

(** ** [Borrow] *)

(** [Borrow] on a bank whose last handle is [h]. *)
Lemma Borrow_pop (E : environment) (w : world) (l : list handle) (h : handle) :
  _pool (self w) = Some l ->
  0 < _size (self w) <= Z.of_nat (length l) ->
  _size (self w) < UINT_MOD ->
  l !! Z.to_nat (_size (self w) - 1) = Some h ->
  Borrow E w = Done h (mkWorld (set_size (_size (self w) - 1) (self w))
                               (mallocs w) (creates w) (trace w)).
Proof.
  intros Hp Hs Hu Hl. unfold Borrow. exec.
  destruct (Z.eqb_spec (_size (self w)) 0) as [|_]; [lia|]. cbn [negb]. exec.
  destruct (Z.eqb_spec (_size (self w)) 0) as [|_]; [lia|]. cbn [negb].
  unfold pop, load. exec. rewrite Hp.
  rewrite (wrap_small (_size (self w) - 1)) by range.
  rewrite in_bounds_true by lia. rewrite Hl. reflexivity.
Qed.

(** [Borrow] on an empty bank calls the factory. *)
Lemma Borrow_empty (E : environment) (w : world) (f : DataFactory) :
  _size (self w) = 0 ->
  _factory (self w) = Some f ->
  let r := CreateData E f (creates w) in
  Borrow E w =
  Done r (mkWorld (if r =? NULL then self w
                   else set_ncreated (wrap (_ncreated (self w) + 1)) (self w))
                  (mallocs w) (S (creates w)) (trace w ++ [CreateDataCall f r])).
Proof.
  intros Hs Hf r. unfold Borrow. exec. rewrite Hs. cbn [Z.eqb negb].
  unfold Borrow_create, call_CreateData, ncreated_fetch_add_1. exec. rewrite Hf. exec.
  fold r. destruct (r =? NULL); exec; reflexivity.
Qed.

(** [Borrow] from a bank that is not empty. *)
Lemma Borrow_banked (E : environment) (w : world) :
  wf (self w) -> _size (self w) <> 0 ->
  exists h w',
    Borrow E w = Done h w' /\
    wf (self w') /\
    banked (self w) = banked (self w') ++ [h] /\
    _size (self w') = _size (self w) - 1 /\
    _capacity (self w') = _capacity (self w) /\
    _ncreated (self w') = _ncreated (self w) /\
    _factory (self w') = _factory (self w) /\
    creates w' = creates w /\ trace w' = trace w /\ mallocs w' = mallocs w.
Proof.
  intros Hwf Hnz. pose proof Hwf as [Hs Hc Hn Hp Hb].
  unfold size_within_capacity in Hs.
  destruct (_pool (self w)) as [l|] eqn:Hl; [|lia].
  assert (Hi : (Z.to_nat (_size (self w) - 1) < length l)%nat) by lia.
  destruct (lookup_lt_is_Some_2 l _ Hi) as [h Hh].
  assert (Hbk : banked (self w) = take (Z.to_nat (_size (self w) - 1)) l ++ [h]).
  { unfold banked. rewrite Hl.
    replace (Z.to_nat (_size (self w))) with (S (Z.to_nat (_size (self w) - 1))) by lia.
    apply take_S_r. exact Hh. }
  eexists _, _. split; [apply (Borrow_pop E w l h Hl); [lia|lia|exact Hh]|]. fields.
  assert (Hbk' : banked (set_size (_size (self w) - 1) (self w))
                 = take (Z.to_nat (_size (self w) - 1)) l)
    by (unfold banked; fields; rewrite Hl; reflexivity).
  split; [|rewrite Hbk'; repeat split; auto].
  constructor; fields.
  - unfold size_within_capacity. fields. lia.
  - exact Hc.
  - exact Hn.
  - rewrite Hl. exact Hp.
  - rewrite Hbk'. rewrite Hbk in Hb. apply Forall_app in Hb. apply Hb.
Qed.

(** [Borrow] takes back the handle that was banked last. *)
Lemma Borrow_after_banks (E : environment) (w w1 : world) (h : handle) :
  wf (self w) -> banks w h w1 ->
  exists w2,
    Borrow E w1 = Done h w2 /\
    _size (self w2) = _size (self w) /\
    banked (self w2) = banked (self w) /\
    trace w2 = trace w /\
    _ncreated (self w2) = _ncreated (self w).
Proof.
  intros Hwf (Hsz & Hbk & Hnc & Hf & Hcr & Htr & Hwf1).
  pose proof (length_banked _ Hwf) as Hlen.
  pose proof Hwf as [Hs _ _ _ _]. pose proof Hwf1 as [Hs1 Hc1 _ Hp1 _].
  unfold size_within_capacity in *.
  destruct (_pool (self w1)) as [l1|] eqn:Hl1; [|lia].
  assert (Htake : take (Z.to_nat (_size (self w1))) l1 = banked (self w) ++ [h])
    by (rewrite <- Hbk; unfold banked; rewrite Hl1; reflexivity).
  assert (Hlook : l1 !! Z.to_nat (_size (self w1) - 1) = Some h).
  { rewrite <- (lookup_take_lt l1 (Z.to_nat (_size (self w1)))) by lia.
    rewrite Htake, lookup_app_r by lia.
    replace (Z.to_nat (_size (self w1) - 1) - length (banked (self w)))%nat with 0%nat by lia.
    reflexivity. }
  eexists. split; [apply (Borrow_pop E w1 l1 h Hl1); [lia|lia|exact Hlook]|].
  fields. split; [lia|]. split; [|split; [exact Htr|exact Hnc]].
  unfold banked at 1. fields. rewrite Hl1.
  replace (Z.to_nat (_size (self w1) - 1)) with
    (Nat.min (Z.to_nat (_size (self w1) - 1)) (Z.to_nat (_size (self w1)))) by lia.
  rewrite <- take_take, Htake, take_app_le by lia.
  apply take_ge. lia.
Qed.

Lemma Borrow_wf (E : environment) (h : handle) (w w' : world) :
  wf (self w) -> Borrow E w = Done h w' -> wf (self w').
Proof.
  intros Hwf HB. destruct (Z.eq_dec (_size (self w)) 0) as [Hz|Hnz].
  - destruct (_factory (self w)) as [f|] eqn:Hf.
    + rewrite (Borrow_empty E w f Hz Hf) in HB. injection HB as _ <-. fields.
      destruct (_ =? NULL); [exact Hwf|apply created_wf; exact Hwf].
    + revert HB. unfold Borrow. exec. rewrite Hz. cbn [Z.eqb negb].
      unfold Borrow_create. exec. rewrite Hf. cbn [call_CreateData]. exec. discriminate.
  - destruct (Borrow_banked E w Hwf Hnz) as (h' & w'' & HB' & Hwf' & _).
    rewrite HB' in HB. injection HB as _ <-. exact Hwf'.
Qed.

(** ** The capacity chosen on growth *)

(** The capacity that [Return] picks for a full bank exceeds the present
    one exactly when the bank has no slot, or at least two and few enough
    for [capacity * 3] not to wrap around. *)
Lemma Return_new_cap_grows (c : Z) :
  is_unsigned c ->
  (c < Return_new_cap c <-> c = 0 \/ 2 <= c <= 1431655765).
Proof.
  intros Hc. unfold Return_new_cap, wrap. rewrite UINT_MOD_value.
  unfold is_unsigned in Hc. rewrite UINT_MOD_value in Hc.
  destruct (Z.eqb_spec c 0) as [->|Hne]; [lia|].
  assert (Hcase : c * 3 < 4294967296 \/ 4294967296 <= c * 3 < 2 * 4294967296
                  \/ 2 * 4294967296 <= c * 3 < 3 * 4294967296) by lia.
  destruct Hcase as [H|[H|H]].
  - rewrite Z.mod_small by lia.
    pose proof (half_bounds (c * 3)). split; intros; [right|]; lia.
  - replace (c * 3) with ((c * 3 - 4294967296) + 1 * 4294967296) by lia.
    rewrite Z_mod_plus_full, Z.mod_small by lia.
    pose proof (half_bounds (c * 3 - 4294967296)). split; intros; lia.
  - replace (c * 3) with ((c * 3 - 2 * 4294967296) + 2 * 4294967296) by lia.
    rewrite Z_mod_plus_full, Z.mod_small by lia.
    pose proof (half_bounds (c * 3 - 2 * 4294967296)). split; intros; lia.
Qed.

Lemma Return_new_cap_range (c : Z) : is_unsigned (Return_new_cap c).
Proof.
  unfold Return_new_cap. destruct (c =? 0); [range|].
  pose proof (wrap_range (c * 3)) as H. unfold is_unsigned in *.
  rewrite UINT_MOD_value in *.
  split; [apply Z.div_pos; lia|]. apply Z.div_lt_upper_bound; lia.
Qed.

Lemma Reserve_new_cap_range (c n : Z) :
  is_unsigned n -> is_unsigned (Reserve_new_cap c n).
Proof.
  intros Hn. unfold Reserve_new_cap.
  pose proof (wrap_range (c * 3)) as H. unfold is_unsigned in *.
  rewrite UINT_MOD_value in *.
  assert (0 <= wrap (c * 3) / 2 < 4294967296)
    by (split; [apply Z.div_pos; lia|apply Z.div_lt_upper_bound; lia]).
  lia.
Qed.

Lemma Reserve_new_cap_grows (c n : Z) : c < n -> c < Reserve_new_cap c n.
Proof. unfold Reserve_new_cap. lia. Qed.

(** ** [Return] *)

Lemma Return_null (E : environment) (w : world) : Return E NULL w = Done tt w.
Proof. reflexivity. Qed.

(** With a free slot, [Return] banks the handle. *)
Lemma Return_room (E : environment) (w : world) (h : handle) :
  wf (self w) -> h <> NULL ->
  _size (self w) < _capacity (self w) ->
  exists w1, Return E h w = Done tt w1 /\ banks w h w1 /\
             _capacity (self w1) = _capacity (self w) /\ mallocs w1 = mallocs w.
Proof.
  intros Hwf Hh Hlt. unfold Return.
  destruct (Z.eqb_spec h NULL) as [|_]; [contradiction|]. exec.
  destruct (Z.eqb_spec (_capacity (self w)) (_size (self w))) as [|_]; [lia|].
  apply push_wf; assumption.
Qed.

(** On a full bank, with memory at hand and a capacity that grows,
    [Return] moves the bank to the larger buffer and banks the handle. *)
Lemma Return_grow (E : environment) (w : world) (h : handle) :
  wf (self w) -> h <> NULL ->
  _capacity (self w) = _size (self w) ->
  malloc_ok E (mallocs w) = true ->
  _capacity (self w) < Return_new_cap (_capacity (self w)) ->
  exists w1, Return E h w = Done tt w1 /\ banks w h w1 /\
             _capacity (self w1) = Return_new_cap (_capacity (self w)) /\
             mallocs w1 = S (mallocs w).
Proof.
  intros Hwf Hh Hfull Hm Hgrow. unfold Return.
  destruct (Z.eqb_spec h NULL) as [|_]; [contradiction|]. exec.
  destruct (Z.eqb_spec (_capacity (self w)) (_size (self w))) as [_|]; [|lia].
  exec. rewrite run_malloc, Hm. exec.
  set (new_cap := Return_new_cap (_capacity (self w))) in *.
  pose proof (Return_new_cap_range (_capacity (self w))) as Hr. fold new_cap in Hr.
  set (fresh_pool := map (uninit E (mallocs w)) (seq 0 (Z.to_nat new_cap))).
  assert (Hlen : Z.of_nat (length fresh_pool) = new_cap)
    by (apply length_fresh; range).
  destruct (move_slots_ok (self w) fresh_pool
              (mkWorld (self w) (S (mallocs w)) (creates w) (trace w)) Hwf)
    as (l' & Hmv & Hl' & Htake); [lia|].
  rewrite Hmv. exec.
  destruct (grown_wf (self w) new_cap l' Hwf) as [Hwf' Hbk'];
    [range|lia|exact Htake|].
  set (wi := mkWorld (set_pool (Some l') (set_capacity new_cap (self w)))
                     (S (mallocs w)) (creates w) (trace w)).
  destruct (push_wf wi h Hwf' Hh) as (w1 & H1 & H2 & H3 & H4); [subst wi; fields; lia|].
  exists w1. split; [exact H1|]. split; [|split; [exact H3|exact H4]].
  apply (banks_from w wi); try reflexivity; assumption.
Qed.

(** On a full bank, with memory at hand and a capacity that does not
    grow, [Return] writes outside the new buffer. *)
Lemma Return_overflow (E : environment) (w : world) (h : handle) :
  wf (self w) -> h <> NULL ->
  _capacity (self w) = _size (self w) ->
  malloc_ok E (mallocs w) = true ->
  Return_new_cap (_capacity (self w)) <= _capacity (self w) ->
  exists i w1,
    Return E h w = Fault (OutOfBounds i (Return_new_cap (_capacity (self w)))) w1 /\
    Return_new_cap (_capacity (self w)) <= i.
Proof.
  intros Hwf Hh Hfull Hm Hgrow. unfold Return.
  destruct (Z.eqb_spec h NULL) as [|_]; [contradiction|]. exec.
  destruct (Z.eqb_spec (_capacity (self w)) (_size (self w))) as [_|]; [|lia].
  exec. rewrite run_malloc, Hm. exec.
  set (new_cap := Return_new_cap (_capacity (self w))) in *.
  pose proof (Return_new_cap_range (_capacity (self w))) as Hr. fold new_cap in Hr.
  set (fresh_pool := map (uninit E (mallocs w)) (seq 0 (Z.to_nat new_cap))).
  assert (Hlen : Z.of_nat (length fresh_pool) = new_cap)
    by (apply length_fresh; range).
  destruct (Z.eq_dec new_cap (_capacity (self w))) as [Heq|Hne].
  - destruct (move_slots_ok (self w) fresh_pool
                (mkWorld (self w) (S (mallocs w)) (creates w) (trace w)) Hwf)
      as (l' & Hmv & Hl' & Htake); [lia|].
    rewrite Hmv. exec. unfold push, store. exec.
    destruct (Z.ltb_spec (_size (self w)) (Z.of_nat (length l'))); [lia|].
    rewrite andb_false_r. exec.
    replace (Z.of_nat (length l')) with new_cap by lia.
    eexists _, _. split; [reflexivity|lia].
  - rewrite move_slots_overflow by (assumption || lia). rewrite Hlen.
    eexists _, _. split; [reflexivity|lia].
Qed.

(** A [Return] of a non-null handle that completes either banked the
    handle or, the allocator having failed on a full bank, changed no
    field of the pool. *)
Lemma Return_Done_cases (E : environment) (w w1 : world) (h : handle) :
  wf (self w) -> h <> NULL ->
  Return E h w = Done tt w1 ->
  banks w h w1 \/
  (_capacity (self w) = _size (self w) /\ malloc_ok E (mallocs w) = false /\
   self w1 = self w).
Proof.
  intros Hwf Hh HR. pose proof Hwf as [Hs Hc Hn Hp Hb].
  unfold size_within_capacity in Hs.
  destruct (Z.eq_dec (_capacity (self w)) (_size (self w))) as [Hfull|Hroom].
  - destruct (malloc_ok E (mallocs w)) eqn:Hm.
    + destruct (Z_lt_le_dec (_capacity (self w)) (Return_new_cap (_capacity (self w))))
        as [Hg|Hg].
      * destruct (Return_grow E w h Hwf Hh Hfull Hm Hg) as (w1' & H1 & H2 & _).
        rewrite H1 in HR. injection HR as <-. left. exact H2.
      * destruct (Return_overflow E w h Hwf Hh Hfull Hm Hg) as (i & w1' & H1 & _).
        rewrite H1 in HR. discriminate.
    + right. split; [exact Hfull|]. split; [reflexivity|].
      revert HR. unfold Return.
      destruct (Z.eqb_spec h NULL) as [|_]; [contradiction|]. exec.
      destruct (Z.eqb_spec (_capacity (self w)) (_size (self w))) as [_|]; [|lia].
      exec. rewrite run_malloc, Hm. exec. unfold call_DestroyData.
      destruct (_factory (self w)); exec; [|discriminate].
      intros [= <-]. reflexivity.
  - destruct (Return_room E w h Hwf Hh) as (w1' & H1 & H2 & _); [lia|].
    rewrite H1 in HR. injection HR as <-. left. exact H2.
Qed.

Lemma Return_wf (E : environment) (h : handle) (w w' : world) :
  wf (self w) -> Return E h w = Done tt w' -> wf (self w').
Proof.
  intros Hwf HR. destruct (Z.eq_dec h NULL) as [->|Hh].
  - rewrite Return_null in HR. injection HR as <-. exact Hwf.
  - destruct (Return_Done_cases E w w' h Hwf Hh HR) as [Hb|(_ & _ & ->)].
    + apply Hb.
    + exact Hwf.
Qed.

(** ** [Reserve] *)

Lemma Reserve_enough (E : environment) (n : Z) (w : world) :
  n <= _capacity (self w) -> Reserve E n w = Done tt w.
Proof.
  intros H. unfold Reserve. exec.
  destruct (Z.geb_spec (_capacity (self w)) n); [reflexivity|lia].
Qed.

(** The world in which the loop of [Reserve] starts. *)
Lemma Reserve_grows (E : environment) (n : Z) (w : world) :
  wf (self w) -> is_unsigned n ->
  _capacity (self w) < n ->
  malloc_ok E (mallocs w) = true ->
  exists l',
    Reserve E n w =
    Reserve_loop E (Z.to_nat (n - _capacity (self w)))
      (mkWorld (set_pool (Some l') (set_capacity (Reserve_new_cap (_capacity (self w)) n) (self w)))
               (S (mallocs w)) (creates w) (trace w)) /\
    wf (set_pool (Some l') (set_capacity (Reserve_new_cap (_capacity (self w)) n) (self w))) /\
    banked (set_pool (Some l') (set_capacity (Reserve_new_cap (_capacity (self w)) n) (self w)))
    = banked (self w).
Proof.
  intros Hwf Hn Hlt Hm. unfold Reserve. exec.
  destruct (Z.geb_spec (_capacity (self w)) n); [lia|]. exec.
  destruct (Z.geb_spec (_capacity (self w)) n); [lia|]. exec.
  rewrite run_malloc, Hm. exec.
  set (new_cap := Reserve_new_cap (_capacity (self w)) n) in *.
  pose proof (Reserve_new_cap_range (_capacity (self w)) n Hn) as Hr. fold new_cap in Hr.
  pose proof (Reserve_new_cap_grows (_capacity (self w)) n Hlt) as Hg. fold new_cap in Hg.
  set (fresh_pool := map (uninit E (mallocs w)) (seq 0 (Z.to_nat new_cap))).
  assert (Hlen : Z.of_nat (length fresh_pool) = new_cap) by (apply length_fresh; range).
  destruct (move_slots_ok (self w) fresh_pool
              (mkWorld (self w) (S (mallocs w)) (creates w) (trace w)) Hwf)
    as (l' & Hmv & Hl' & Htake); [lia|].
  rewrite Hmv. exec. exists l'. split; [reflexivity|].
  apply grown_wf; [exact Hwf|range|lia|exact Htake].
Qed.

(** The loop of [Reserve] when every [CreateData] call it makes returns a
    handle: [k] handles are created, counted and banked. *)
Lemma Reserve_loop_fills (E : environment) (f : DataFactory) (k : nat) :
  forall w : world,
    wf (self w) ->
    _factory (self w) = Some f ->
    _size (self w) + Z.of_nat k <= _capacity (self w) ->
    (forall j, CreateData E f j <> NULL) ->
    exists w',
      Reserve_loop E k w = Done tt w' /\
      wf (self w') /\
      _size (self w') = _size (self w) + Z.of_nat k /\
      _ncreated (self w') = wrap (_ncreated (self w) + Z.of_nat k) /\
      banked (self w') = banked (self w) ++ created E f (creates w) k /\
      trace w' = trace w ++ map (CreateDataCall f) (created E f (creates w) k) /\
      _capacity (self w') = _capacity (self w) /\
      _factory (self w') = _factory (self w) /\
      creates w' = (creates w + k)%nat /\
      mallocs w' = mallocs w.
Proof.
  induction k as [|k IH]; intros w Hwf Hf Hroom Hok.
  - exists w. cbn [Reserve_loop]. exec. unfold created. cbn [seq map].
    change (Z.of_nat 0) with 0.
    rewrite !app_nil_r, !Z.add_0_r, Nat.add_0_r, wrap_small by apply Hwf.
    split; [reflexivity|]. split; [exact Hwf|]. repeat split; auto.
  - cbn [Reserve_loop]. exec. rewrite Hf. unfold call_CreateData. exec.
    set (r := CreateData E f (creates w)).
    destruct (Z.eqb_spec r NULL) as [Hr|Hr]; [exfalso; exact (Hok _ Hr)|].
    unfold ncreated_fetch_add_1. exec.
    set (wi := mkWorld (set_ncreated (wrap (_ncreated (self w) + 1)) (self w))
                       (mallocs w) (S (creates w)) (trace w ++ [CreateDataCall f r])).
    destruct (push_wf wi r) as (w1 & H1 & (Hsz & Hbk & Hnc & Hfa & Hcr & Htr & Hwf1) & Hcap & Hma).
    { subst wi. fields. apply created_wf. exact Hwf. }
    { exact Hr. }
    { subst wi. fields. lia. }
    rewrite H1. subst wi. fields_all.
    change (banked (set_ncreated (wrap (_ncreated (self w) + 1)) (self w)))
      with (banked (self w)) in Hbk.
    destruct (IH w1 Hwf1) as (w' & HL & Hwf' & Hsz' & Hnc' & Hbk' & Htr' & Hcap' & Hfa' & Hcr' & Hma').
    { rewrite Hfa. exact Hf. }
    { rewrite Hsz, Hcap. fields. lia. }
    { exact Hok. }
    exists w'. split; [exact HL|]. split; [exact Hwf'|].
    rewrite Hsz', Hnc', Hbk', Htr', Hcap', Hfa', Hcr', Hma'.
    rewrite Hsz, Hnc, Hbk, Htr, Hcap, Hfa, Hcr, Hma.
    unfold created. cbn [seq map]. fold r.
    replace (Z.of_nat (S k)) with (Z.of_nat k + 1) by lia.
    rewrite <- !app_assoc. cbn [app].
    repeat split; try reflexivity; try lia; try assumption.
    rewrite wrap_add_l. f_equal. lia.
Qed.

(** The loop of [Reserve], whatever the factory answers: when it completes,
    the pool is well-formed and the bank has grown by at most [k]. *)
Lemma Reserve_loop_wf (E : environment) (k : nat) :
  forall w w' : world,
    wf (self w) ->
    _size (self w) + Z.of_nat k <= _capacity (self w) ->
    Reserve_loop E k w = Done tt w' ->
    wf (self w') /\ _capacity (self w') = _capacity (self w) /\
    _size (self w) <= _size (self w').
Proof.
  induction k as [|k IH]; intros w w' Hwf Hroom.
  - cbn [Reserve_loop]. exec. intros [= <-]. split; [exact Hwf|]. lia.
  - cbn [Reserve_loop]. exec. unfold call_CreateData.
    destruct (_factory (self w)) as [f|]; exec; [|discriminate].
    set (r := CreateData E f (creates w)).
    destruct (Z.eqb_spec r NULL) as [Hr|Hr]; exec.
    + intros [= <-]. fields. split; [exact Hwf|]. lia.
    + unfold ncreated_fetch_add_1. exec.
      set (wi := mkWorld (set_ncreated (wrap (_ncreated (self w) + 1)) (self w))
                         (mallocs w) (S (creates w)) (trace w ++ [CreateDataCall f r])).
      destruct (push_wf wi r) as (w1 & H1 & (Hsz & _ & _ & _ & _ & _ & Hwf1) & Hcap & _).
      { subst wi. fields. apply created_wf. exact Hwf. }
      { exact Hr. }
      { subst wi. fields. lia. }
      rewrite H1. subst wi. fields_all. intros HL.
      destruct (IH w1 w' Hwf1) as (Hwf' & Hcap' & Hsz'); [lia|exact HL|].
      split; [exact Hwf'|]. lia.
Qed.

(** [Reserve n] beyond the capacity, when nothing fails. *)
Lemma Reserve_beyond_capacity (E : environment) (w : world) (n : Z) (f : DataFactory) :
  wf (self w) ->
  is_unsigned n ->
  _factory (self w) = Some f ->
  malloc_ok E (mallocs w) = true ->
  (forall j, CreateData E f j <> NULL) ->
  _capacity (self w) < n ->
  exists w',
    Reserve E n w = Done tt w' /\
    wf (self w') /\
    _size (self w') = _size (self w) + (n - _capacity (self w)) /\
    _ncreated (self w') = wrap (_ncreated (self w) + (n - _capacity (self w))) /\
    banked (self w') =
      banked (self w) ++ created E f (creates w) (Z.to_nat (n - _capacity (self w))) /\
    trace w' =
      trace w ++ map (CreateDataCall f)
                     (created E f (creates w) (Z.to_nat (n - _capacity (self w)))) /\
    _capacity (self w') = Reserve_new_cap (_capacity (self w)) n.
Proof.
  intros Hwf Hn Hf Hm Hok Hlt.
  destruct (Reserve_grows E n w Hwf Hn Hlt Hm) as (l' & HR & Hwfi & Hbki).
  set (k := Z.to_nat (n - _capacity (self w))) in *.
  pose proof (Reserve_new_cap_grows (_capacity (self w)) n Hlt) as Hg.
  pose proof Hwf as [Hs _ _ _ _]. unfold size_within_capacity in Hs.
  match type of HR with _ = Reserve_loop _ _ ?x => set (wi := x) in * end.
  destruct (Reserve_loop_fills E f k wi)
    as (w' & HL & Hwf' & Hsz' & Hnc' & Hbk' & Htr' & Hcap' & Hfa' & Hcr' & Hma').
  { exact Hwfi. }
  { exact Hf. }
  { subst wi k. fields. unfold Reserve_new_cap. lia. }
  { exact Hok. }
  exists w'. split; [rewrite HR; exact HL|]. split; [exact Hwf'|].
  rewrite Hsz', Hnc', Hbk', Htr', Hcap'. subst wi.
  cbn [self mallocs creates trace]. rewrite Hbki. fields.
  replace (Z.of_nat k) with (n - _capacity (self w)) by lia.
  repeat split; reflexivity.
Qed.

(** Where [Reserve] must grow the buffer, it picks
    [max(capacity * 3 / 2, n)], which exceeds the capacity. *)
Lemma Reserve_new_capacity (E : environment) (w : world) (n : Z) (f : DataFactory) :
  wf (self w) -> is_unsigned n ->
  _capacity (self w) < n ->
  malloc_ok E (mallocs w) = true ->
  _factory (self w) = Some f ->
  forall w', Reserve E n w = Done tt w' ->
    _capacity (self w') = Z.max (wrap (_capacity (self w) * 3) / 2) n /\
    _capacity (self w) < _capacity (self w').
Proof.
  intros Hwf Hn Hlt Hm Hf w' HR.
  destruct (Reserve_grows E n w Hwf Hn Hlt Hm) as (l' & HR' & Hwfi & _).
  rewrite HR' in HR.
  apply Reserve_loop_wf in HR as (_ & Hcap & _).
  - rewrite Hcap. fields. unfold Reserve_new_cap. lia.
  - exact Hwfi.
  - fields. pose proof Hwf as [Hs _ _ _ _]. unfold size_within_capacity in Hs.
    unfold Reserve_new_cap. lia.
Qed.

Lemma Reserve_wf (E : environment) (n : Z) (w w' : world) :
  wf (self w) -> is_unsigned n -> Reserve E n w = Done tt w' -> wf (self w').
Proof.
  intros Hwf Hn HR. destruct (Z_le_gt_dec n (_capacity (self w))) as [Hle|Hgt].
  - rewrite (Reserve_enough E n w Hle) in HR. injection HR as <-. exact Hwf.
  - destruct (malloc_ok E (mallocs w)) eqn:Hm.
    + destruct (Reserve_grows E n w Hwf Hn) as (l' & HR' & Hwfi & _); [lia|exact Hm|].
      rewrite HR' in HR. apply Reserve_loop_wf in HR; [apply HR|exact Hwfi|].
      fields. pose proof Hwf as [Hs _ _ _ _]. unfold size_within_capacity in Hs.
      unfold Reserve_new_cap. lia.
    + revert HR. unfold Reserve. exec.
      destruct (Z.geb_spec (_capacity (self w)) n); [lia|]. exec.
      destruct (Z.geb_spec (_capacity (self w)) n); [lia|]. exec.
      rewrite run_malloc, Hm. exec. intros [= <-]. exact Hwf.
Qed.

(** ** [Reset] *)

(** The loop of [Reset] over slots [[i, i + k)] of the detached buffer. *)
Lemma Reset_loop_destroys (f : DataFactory) (l : list handle) (k : nat) :
  forall (i : nat) (w : world),
    (i + k <= length l)%nat ->
    Reset_loop (Some f) (Some l) (Z.of_nat i) k w =
    Done tt (mkWorld (self w) (mallocs w) (creates w)
                     (trace w ++ map (DestroyDataCall f) (take k (drop i l)))).
Proof.
  induction k as [|k IH]; intros i w Hle.
  - cbn [Reset_loop take map]. exec. rewrite app_nil_r. destruct w; reflexivity.
  - cbn [Reset_loop]. unfold load. exec.
    rewrite in_bounds_true by lia. rewrite Nat2Z.id.
    destruct (lookup_lt_is_Some_2 l i) as [h Hh]; [lia|].
    rewrite Hh. exec. unfold call_DestroyData. exec.
    replace (Z.of_nat i + 1) with (Z.of_nat (S i)) by lia.
    rewrite IH by lia. fields.
    rewrite (drop_S l h i Hh). cbn [take map].
    rewrite <- app_assoc. reflexivity.
Qed.

Lemma Reset_loop_from_0 (f : DataFactory) (l : list handle) (k : nat) (w : world) :
  (k <= length l)%nat ->
  Reset_loop (Some f) (Some l) 0 k w =
  Done tt (mkWorld (self w) (mallocs w) (creates w)
                   (trace w ++ map (DestroyDataCall f) (take k l))).
Proof. intros H. exact (Reset_loop_destroys f l k 0 w H). Qed.

Lemma Reset_loop_self (fp : option DataFactory) (buf : option (list handle)) (k : nat) :
  forall (i : Z) (w w' : world),
    Reset_loop fp buf i k w = Done tt w' -> self w' = self w.
Proof.
  induction k as [|k IH]; intros i w w'; cbn [Reset_loop]; exec.
  - intros [= <-]. reflexivity.
  - destruct (load buf i w) as [h w1|flt w1] eqn:Hld; [|discriminate].
    assert (Hw1 : w1 = w).
    { revert Hld. unfold load. destruct buf; exec; [|discriminate].
      destruct (_ && _); exec; [|discriminate].
      destruct (_ !! _); exec; [|discriminate]. congruence. }
    subst w1. exec. unfold call_DestroyData. destruct fp; exec; [|discriminate].
    intros HL. apply IH in HL. exact HL.
Qed.

Lemma Reset_self (factory : option DataFactory) (w w' : world) :
  Reset factory w = Done tt w' -> self w' = SimpleDataPool_new factory.
Proof.
  unfold Reset. exec.
  destruct (_pool (self w)); exec.
  - destruct (_factory (self w)); exec.
    + intros HL. apply Reset_loop_self in HL. exact HL.
    + intros [= <-]. reflexivity.
  - intros [= <-]. reflexivity.
Qed.

Lemma Reset_wf (factory : option DataFactory) (w w' : world) :
  Reset factory w = Done tt w' -> wf (self w').
Proof. intros HR. rewrite (Reset_self factory w w' HR). apply wf_new. Qed.

(** ** Well-formedness along a sequence of calls *)

(** Every sequence of [Reserve], [Borrow] and [Return] calls that
    completes on a well-formed pool leaves a well-formed pool. *)
Lemma run_ops_wf (E : environment) (l : list op) :
  Forall (fun o => match o with OpReserve n => is_unsigned n | _ => True end) l ->
  forall w w' : world,
    wf (self w) -> run_ops E l w = Done tt w' -> wf (self w').
Proof.
  induction 1 as [|o l Ho Hl IH]; intros w w' Hwf; cbn [run_ops]; exec.
  - intros [= <-]. exact Hwf.
  - destruct (run_op E o w) as [[] w1|flt w1] eqn:Hop; [|discriminate].
    apply IH. destruct o as [n| |data]; cbn [run_op] in Hop.
    + exact (Reserve_wf E n w w1 Hwf Ho Hop).
    + revert Hop. exec. destruct (Borrow E w) as [h w2|flt w2] eqn:HB; exec; [|discriminate].
      intros [= <-]. exact (Borrow_wf E h w w2 Hwf HB).
    + exact (Return_wf E data w w1 Hwf Hop).
Qed.

(** ** Calls through the factory pointer *)

Lemma push_no_NullFactory (data : handle) (w w' : world) :
  push data w <> Fault NullFactory w'.
Proof.
  unfold push, store. exec. destruct (_pool (self w)); exec; [|discriminate].
  destruct ((0 <=? _size (self w)) && _); exec; discriminate.
Qed.

Lemma move_slots_no_NullFactory (new_pool : list handle) (p : SimpleDataPool)
    (w w' : world) :
  move_slots new_pool p w <> Fault NullFactory w'.
Proof.
  unfold move_slots, memcpy. destruct (_pool p); exec; [|discriminate].
  destruct (_ <? _); exec; [discriminate|].
  destruct (_ <? _); exec; discriminate.
Qed.

(** With a factory to call, the loop of [Reserve] does not call through a
    null pointer. *)
Lemma Reserve_loop_no_NullFactory (E : environment) (f : DataFactory) (k : nat) :
  forall w w' : world,
    _factory (self w) = Some f ->
    Reserve_loop E k w <> Fault NullFactory w'.
Proof.
  induction k as [|k IH]; intros w w' Hf.
  - cbn [Reserve_loop]. exec. discriminate.
  - cbn [Reserve_loop]. exec. rewrite Hf. unfold call_CreateData. exec.
    destruct (_ =? NULL); exec; [discriminate|].
    unfold ncreated_fetch_add_1. exec.
    match goal with |- context [push ?d ?x] => destruct (push d x) as [[] w1|flt w1] eqn:Hp end.
    + apply IH. apply push_Done in Hp as (l & _ & _ & ->). fields. exact Hf.
    + intros [= -> ->]. exact (push_no_NullFactory _ _ _ Hp).
Qed.

Lemma Borrow_no_NullFactory (E : environment) (f : DataFactory) (w w' : world) :
  _factory (self w) = Some f -> Borrow E w <> Fault NullFactory w'.
Proof.
  intros Hf.
  assert (Hc : Borrow_create E w <> Fault NullFactory w').
  { unfold Borrow_create, call_CreateData, ncreated_fetch_add_1. exec. rewrite Hf. exec.
    destruct (_ =? NULL); exec; discriminate. }
  unfold Borrow. exec. destruct (_size (self w) =? 0); cbn [negb]; [exact Hc|].
  exec. destruct (_size (self w) =? 0); cbn [negb]; [exact Hc|].
  unfold pop, load. exec. destruct (_pool (self w)); exec; [|discriminate].
  destruct ((0 <=? _) && _); [|exec; discriminate].
  destruct (_ !! _); exec; discriminate.
Qed.

Lemma Reserve_no_NullFactory (E : environment) (f : DataFactory) (n : Z) (w w' : world) :
  _factory (self w) = Some f -> Reserve E n w <> Fault NullFactory w'.
Proof.
  intros Hf. unfold Reserve. exec.
  destruct (_ >=? n); exec; [discriminate|].
  destruct (_ >=? n); exec; [discriminate|].
  rewrite run_malloc. exec. destruct (malloc_ok E (mallocs w)); exec; [|discriminate].
  match goal with
  | |- context [move_slots ?a ?b ?c] => destruct (move_slots a b c) as [l w1|flt w1] eqn:Hmv
  end.
  - apply move_slots_world in Hmv as ->. exec.
    apply (Reserve_loop_no_NullFactory E f). exact Hf.
  - intros [= -> ->]. exact (move_slots_no_NullFactory _ _ _ _ Hmv).
Qed.

Lemma Return_no_NullFactory (E : environment) (f : DataFactory) (h : handle) (w w' : world) :
  _factory (self w) = Some f -> Return E h w <> Fault NullFactory w'.
Proof.
  intros Hf. unfold Return. destruct (h =? NULL); exec; [discriminate|].
  destruct (_ =? _); [|apply push_no_NullFactory].
  exec. rewrite run_malloc. exec. destruct (malloc_ok E (mallocs w)); exec.
  - match goal with
    | |- context [move_slots ?a ?b ?c] => destruct (move_slots a b c) as [l w1|flt w1] eqn:Hmv
    end.
    + exec. apply push_no_NullFactory.
    + intros [= -> ->]. exact (move_slots_no_NullFactory _ _ _ _ Hmv).
  - rewrite Hf. unfold call_DestroyData. exec. discriminate.
Qed.

(** ** Counting the handles created *)

Lemma successes_app (t1 t2 : list event) :
  successes (t1 ++ t2) = successes t1 + successes t2.
Proof.
  induction t1 as [|[f r|f h] t1 IH]; cbn [app successes]; lia.
Qed.

Lemma accounts_refl (w : world) : accounts w w.
Proof. exists 0. rewrite !Z.add_0_r. auto with zarith. Qed.

Lemma accounts_trans (w1 w2 w3 : world) :
  accounts w1 w2 -> accounts w2 w3 -> accounts w1 w3.
Proof.
  intros (d1 & Hd1 & Hs1 & Hn1 & Hu1) (d2 & Hd2 & Hs2 & Hn2 & Hu2).
  exists (d1 + d2). split; [lia|]. split; [lia|]. split; [|auto].
  rewrite Hn2, <- wrap_add_l, Hn1, wrap_add_l. f_equal. lia.
Qed.

(** A world that differs in neither the creations traced nor the count. *)
Lemma accounts_same (w w' : world) :
  successes (trace w') = successes (trace w) ->
  _ncreated (self w') = _ncreated (self w) ->
  accounts w w'.
Proof.
  intros Ht Hn. exists 0. rewrite !Z.add_0_r, Hn. auto with zarith.
Qed.

Lemma keeps_ret {A} (a : A) : keeps_count (ret a).
Proof. intros w. apply accounts_refl. Qed.

Lemma keeps_abort {A} (f : fault) : keeps_count (@abort A f).
Proof. intros w. apply accounts_refl. Qed.

Lemma keeps_this : keeps_count this.
Proof. intros w. apply accounts_refl. Qed.

Lemma keeps_bind {A B} (c : M A) (k : A -> M B) :
  keeps_count c -> (forall a, keeps_count (k a)) -> keeps_count (bind c k).
Proof.
  intros Hc Hk w. rewrite run_bind. specialize (Hc w).
  destruct (c w) as [a w1|f w1]; cbn [final] in *.
  - exact (accounts_trans _ _ _ Hc (Hk a w1)).
  - exact Hc.
Qed.

Lemma keeps_update (g : SimpleDataPool -> SimpleDataPool) :
  (forall p, _ncreated (g p) = _ncreated p) -> keeps_count (update g).
Proof. intros Hg w. apply accounts_same; cbn; auto. Qed.

Lemma keeps_call_DestroyData (fp : option DataFactory) (h : handle) :
  keeps_count (call_DestroyData fp h).
Proof.
  destruct fp as [f|]; [|apply keeps_abort].
  intros w. apply accounts_same; cbn; [|reflexivity].
  rewrite successes_app. cbn. lia.
Qed.

Lemma keeps_malloc (E : environment) (slots : Z) : keeps_count (malloc E slots).
Proof. intros w. rewrite run_malloc. apply accounts_same; reflexivity. Qed.

Lemma keeps_move_slots (new_pool : list handle) (p : SimpleDataPool) :
  keeps_count (move_slots new_pool p).
Proof.
  unfold move_slots, memcpy. destruct (_pool p); [|apply keeps_ret].
  destruct (_ <? _); [apply keeps_abort|].
  destruct (_ <? _); [apply keeps_abort|apply keeps_ret].
Qed.

Lemma keeps_load (buf : option (list handle)) (i : Z) : keeps_count (load buf i).
Proof.
  unfold load. destruct buf; [|apply keeps_abort].
  destruct (_ && _); [|apply keeps_abort].
  destruct (_ !! _); [apply keeps_ret|apply keeps_abort].
Qed.

Lemma keeps_store (i : Z) (h : handle) : keeps_count (store i h).
Proof.
  unfold store. apply keeps_bind; [apply keeps_this|]. intros p.
  destruct (_pool p); [|apply keeps_abort].
  destruct (_ && _); [|apply keeps_abort].
  apply keeps_update. reflexivity.
Qed.

Lemma keeps_push (data : handle) : keeps_count (push data).
Proof.
  unfold push. apply keeps_bind; [apply keeps_this|]. intros p.
  apply keeps_bind; [apply keeps_update; reflexivity|]. intros _. apply keeps_store.
Qed.

Lemma keeps_pop : keeps_count pop.
Proof.
  unfold pop. apply keeps_bind; [apply keeps_this|]. intros p.
  apply keeps_bind; [apply keeps_update; reflexivity|]. intros _. apply keeps_load.
Qed.

(** A [CreateData] call followed by the count of its result. *)
Lemma keeps_create_then {B} (E : environment) (fp : option DataFactory)
    (k1 : M B) (k2 : handle -> M B) :
  keeps_count k1 -> (forall data, keeps_count (k2 data)) ->
  keeps_count (data <- call_CreateData E fp ;;
               if data =? NULL then k1 else (ncreated_fetch_add_1 ;; k2 data)).
Proof.
  intros H1 H2 w. unfold call_CreateData. destruct fp as [f|]; [|apply accounts_refl].
  exec. set (r := CreateData E f (creates w)).
  destruct (Z.eqb_spec r NULL) as [Hr|Hr].
  - eapply accounts_trans; [|apply H1]. apply accounts_same; cbn; [|reflexivity].
    rewrite successes_app. cbn. rewrite (proj2 (Z.eqb_eq r NULL) Hr). lia.
  - unfold ncreated_fetch_add_1. exec.
    eapply accounts_trans; [|apply H2]. exists 1. cbn.
    rewrite successes_app. cbn. rewrite (proj2 (Z.eqb_neq r NULL) Hr).
    split; [lia|]. split; [lia|]. split; [apply wrap_small, wrap_range|].
    intros _. apply wrap_range.
Qed.

Lemma keeps_Reserve_loop (E : environment) (k : nat) : keeps_count (Reserve_loop E k).
Proof.
  induction k as [|k IH]; cbn [Reserve_loop]; [apply keeps_ret|].
  apply keeps_bind; [apply keeps_this|]. intros p.
  apply (keeps_create_then E (_factory p) (ret tt)
           (fun data => push data ;; Reserve_loop E k)); [apply keeps_ret|].
  intros data. apply keeps_bind; [apply keeps_push|]. intros _. exact IH.
Qed.

Lemma keeps_Reserve (E : environment) (n : Z) : keeps_count (Reserve E n).
Proof.
  unfold Reserve. apply keeps_bind; [apply keeps_this|]. intros p0.
  destruct (_ >=? n); [apply keeps_ret|].
  apply keeps_bind; [apply keeps_this|]. intros p.
  destruct (_ >=? n); [apply keeps_ret|].
  apply keeps_bind; [apply keeps_malloc|]. intros [new_pool|]; [|apply keeps_ret].
  apply keeps_bind; [apply keeps_move_slots|]. intros new_pool'.
  apply keeps_bind; [apply keeps_update; reflexivity|]. intros _.
  apply keeps_bind; [apply keeps_update; reflexivity|]. intros _.
  apply keeps_Reserve_loop.
Qed.

Lemma keeps_Borrow_create (E : environment) : keeps_count (Borrow_create E).
Proof.
  intros w. unfold Borrow_create, call_CreateData. exec.
  destruct (_factory (self w)) as [f|]; [|apply accounts_refl].
  exec. set (r := CreateData E f (creates w)).
  destruct (Z.eqb_spec r NULL) as [Hr|Hr]; exec.
  - apply accounts_same; cbn; [|reflexivity].
    rewrite successes_app. cbn. rewrite (proj2 (Z.eqb_eq r NULL) Hr). lia.
  - unfold ncreated_fetch_add_1. exec. exists 1. cbn.
    rewrite successes_app. cbn. rewrite (proj2 (Z.eqb_neq r NULL) Hr).
    split; [lia|]. split; [lia|]. split; [apply wrap_small, wrap_range|].
    intros _. apply wrap_range.
Qed.

Lemma keeps_Borrow (E : environment) : keeps_count (Borrow E).
Proof.
  unfold Borrow. apply keeps_bind; [apply keeps_this|]. intros p0.
  destruct (negb _); [|apply keeps_Borrow_create].
  apply keeps_bind; [apply keeps_this|]. intros p.
  destruct (negb _); [apply keeps_pop|apply keeps_Borrow_create].
Qed.

Lemma keeps_Return (E : environment) (data : handle) : keeps_count (Return E data).
Proof.
  unfold Return. destruct (data =? NULL); [apply keeps_ret|].
  apply keeps_bind; [apply keeps_this|]. intros p.
  destruct (_ =? _); [|apply keeps_push].
  apply keeps_bind; [apply keeps_malloc|].
  intros [new_pool|]; [|apply keeps_call_DestroyData].
  apply keeps_bind; [apply keeps_move_slots|]. intros new_pool'.
  apply keeps_bind; [apply keeps_update; reflexivity|]. intros _.
  apply keeps_bind; [apply keeps_update; reflexivity|]. intros _.
  apply keeps_push.
Qed.

Lemma keeps_run_op (E : environment) (o : op) : keeps_count (run_op E o).
Proof.
  destruct o as [n| |data]; cbn [run_op].
  - apply keeps_Reserve.
  - apply keeps_bind; [apply keeps_Borrow|]. intros _. apply keeps_ret.
  - apply keeps_Return.
Qed.

Lemma keeps_run_ops (E : environment) (l : list op) : keeps_count (run_ops E l).
Proof.
  induction l as [|o l IH]; cbn [run_ops]; [apply keeps_ret|].
  apply keeps_bind; [apply keeps_run_op|]. intros _. exact IH.
Qed.

Lemma run_ops_app (E : environment) (l1 l2 : list op) (w : world) :
  run_ops E (l1 ++ l2) w = (run_ops E l1 ;; run_ops E l2) w.
Proof.
  revert w. induction l1 as [|o l1 IH]; intros w; cbn [app run_ops].
  - reflexivity.
  - rewrite !run_bind. destruct (run_op E o w) as [[] w1|f w1]; [|reflexivity].
    rewrite IH, run_bind. reflexivity.
Qed.

(** [k] [Borrow]s in a row from an empty bank over a factory that always
    returns a handle. *)
Lemma Borrows_on_empty (E : environment) (f : DataFactory) (k : nat) :
  (forall j, CreateData E f j <> NULL) ->
  forall w : world,
    _size (self w) = 0 ->
    _factory (self w) = Some f ->
    exists w',
      run_ops E (replicate k OpBorrow) w = Done tt w' /\
      successes (trace w') = successes (trace w) + Z.of_nat k /\
      _size (self w') = 0 /\
      _factory (self w') = Some f.
Proof.
  intros Hok. induction k as [|k IH]; intros w Hz Hf.
  - exists w. cbn [replicate run_ops]. exec. split; [reflexivity|].
    split; [cbn; lia|]. auto.
  - cbn [replicate run_ops run_op]. exec.
    rewrite (Borrow_empty E w f Hz Hf). exec.
    set (r := CreateData E f (creates w)).
    assert (Hr : (r =? NULL) = false) by (apply Z.eqb_neq, Hok).
    rewrite Hr.
    match goal with |- context [run_ops E _ ?x] => destruct (IH x) as (w' & H1 & H2 & H3 & H4) end.
    { cbn. exact Hz. }
    { cbn. exact Hf. }
    exists w'. split; [exact H1|]. split; [|auto].
    rewrite H2. cbn [trace]. rewrite successes_app. cbn [successes]. rewrite Hr. lia.
Qed.

(** * The claims of the specification *)

(** ** The invariant [0 <= size <= capacity] *)

(** C1 fails on the code: the calls [Reserve(1)], [Borrow()], [Borrow()],
    [Return(a)] on a new pool lead to a well-formed pool with
    [size = capacity = 1]; the [Return] of the other borrowed handle then
    allocates a buffer of one slot again, stores into slot 1 of it, and
    leaves [size = 2] with [capacity = 1]. *)
Theorem Return_overflows_bank_of_one :
  (Reserve generous 1 ;; a <- Borrow generous ;; b <- Borrow generous ;;
   Return generous a ;; ret b) (fresh (Some 7%nat)) = Done 4112 full_of_one /\
  wf (self full_of_one) /\
  size_within_capacity (self full_of_one) /\
  exists w',
    Return generous 4112 full_of_one = Fault (OutOfBounds 1 1) w' /\
    _size (self w') = 2 /\ _capacity (self w') = 1 /\
    ~ size_within_capacity (self w').
Proof.
  split; [vm_compute; reflexivity|].
  split; [closed_wf|].
  split; [unfold size_within_capacity; cbn; lia|].
  eexists. split; [vm_compute; reflexivity|].
  unfold size_within_capacity. cbn. repeat split; lia.
Qed.

(** ** What [Reserve] banks *)

(** C2, as the code has it: on a well-formed pool whose factory is not
    null, and when neither [malloc] nor [CreateData] fails, [Reserve n]
    completes.  With [n <= capacity] it changes nothing.  With
    [capacity < n] it constructs [n - capacity] handles, each appended to
    the bank and counted in [_ncreated]; so at least [n] handles are
    banked afterwards when the bank was full before the call. *)
Theorem Reserve_fills_new_slots (E : environment) (w : world) (n : Z) (f : DataFactory) :
  wf (self w) ->
  is_unsigned n ->
  _factory (self w) = Some f ->
  malloc_ok E (mallocs w) = true ->
  (forall j, CreateData E f j <> NULL) ->
  exists w',
    Reserve E n w = Done tt w' /\
    let k := Z.to_nat (n - _capacity (self w)) in
    _size (self w') = _size (self w) + Z.of_nat k /\
    _ncreated (self w') = wrap (_ncreated (self w) + Z.of_nat k) /\
    banked (self w') = banked (self w) ++ created E f (creates w) k /\
    trace w' = trace w ++ map (CreateDataCall f) (created E f (creates w) k) /\
    (n <= _capacity (self w) -> w' = w) /\
    (_capacity (self w) < n ->
     _capacity (self w') = Reserve_new_cap (_capacity (self w)) n) /\
    (_size (self w) = _capacity (self w) -> n <= _size (self w')).
Proof.
  intros Hwf Hn Hf Hm Hok.
  destruct (Z_le_gt_dec n (_capacity (self w))) as [Hle|Hgt].
  - exists w. split; [apply Reserve_enough; exact Hle|].
    replace (Z.to_nat (n - _capacity (self w))) with 0%nat by lia.
    unfold created. cbn [seq map Z.of_nat].
    rewrite !app_nil_r, !Z.add_0_r, wrap_small by apply Hwf.
    repeat split; auto; lia.
  - destruct (Reserve_beyond_capacity E w n f Hwf Hn Hf Hm Hok)
      as (w' & HR & _ & Hsz & Hnc & Hbk & Htr & Hcap); [lia|].
    exists w'. split; [exact HR|]. cbv zeta.
    replace (Z.of_nat (Z.to_nat (n - _capacity (self w))))
      with (n - _capacity (self w)) by lia.
    rewrite Hsz, Hnc, Hbk, Htr, Hcap.
    repeat split; try reflexivity; lia.
Qed.

(** [Reserve 5] on a pool that has just been constructed. *)
Lemma Reserve_fills_new_slots_witness :
  exists w',
    Reserve generous 5 (fresh (Some 7%nat)) = Done tt w' /\
    _size (self w') = 5 /\ _ncreated (self w') = 5 /\
    banked (self w') = [4096; 4112; 4128; 4144; 4160].
Proof.
  destruct (Reserve_fills_new_slots generous (fresh (Some 7%nat)) 5 7%nat)
    as (w' & H1 & H2 & H3 & H4 & _).
  - apply wf_new.
  - split; [lia|reflexivity].
  - reflexivity.
  - reflexivity.
  - intros j. cbn. unfold NULL. lia.
  - exists w'. split; [exact H1|]. split; [exact H2|]. split; [exact H3|exact H4].
Defined.

(** C2 fails as stated: with one handle banked in 128 slots and nothing
    failing, [Reserve 5] leaves one handle banked, and [Reserve 130]
    constructs two handles and leaves three banked. *)
Lemma Reserve_does_not_top_up :
  wf (self one_banked) /\
  (exists w', Reserve generous 5 one_banked = Done tt w' /\
              _size (self w') = 1 /\ ~ 5 <= _size (self w')) /\
  (exists w', Reserve generous 130 one_banked = Done tt w' /\
              _size (self w') = 3 /\ ~ 130 <= _size (self w')).
Proof.
  split; [|split].
  - closed_wf.
  - eexists. split; [vm_compute; reflexivity|]. cbn. split; [reflexivity|lia].
  - eexists. split; [vm_compute; reflexivity|]. cbn. split; [reflexivity|lia].
Qed.

(** ** What [Reset] destroys *)

(** C3: [Reset newFactory] on a well-formed pool completes; the factory
    calls it makes are [DestroyData], on the factory the pool had before,
    once for each banked handle in the order of the slots (and none when
    that factory was null); afterwards capacity, size and creation count
    are zero, the buffer is null and the factory is [newFactory], on which
    the next [Borrow] calls [CreateData]. *)
Theorem Reset_drains (w : world) (newFactory : option DataFactory) :
  wf (self w) ->
  exists w',
    Reset newFactory w = Done tt w' /\
    self w' = mkPool 0 0 0 None newFactory /\
    (forall f, _factory (self w) = Some f ->
               trace w' = trace w ++ map (DestroyDataCall f) (banked (self w))) /\
    (_factory (self w) = None -> trace w' = trace w) /\
    (forall E g, newFactory = Some g ->
       exists r w'',
         Borrow E w' = Done r w'' /\
         r = CreateData E g (creates w') /\
         trace w'' = trace w' ++ [CreateDataCall g r]).
Proof.
  intros [Hs Hc Hn Hp Hb]. unfold size_within_capacity in Hs.
  assert (Hnext : forall m c t E g,
             newFactory = Some g ->
             let w' := mkWorld (mkPool 0 0 0 None newFactory) m c t in
             exists r w'',
               Borrow E w' = Done r w'' /\
               r = CreateData E g (creates w') /\
               trace w'' = trace w' ++ [CreateDataCall g r]).
  { intros m c t E g -> w'. eexists _, _.
    split; [apply (Borrow_empty E w' g); reflexivity|].
    fields. auto. }
  unfold Reset, banked. exec.
  destruct (_pool (self w)) as [l|] eqn:Hl.
  - destruct (_factory (self w)) as [f|] eqn:Hf.
    + rewrite Reset_loop_from_0 by lia. fields.
      eexists. split; [reflexivity|]. fields.
      split; [reflexivity|]. split; [intros f' [= <-]; reflexivity|].
      split; [discriminate|]. intros E g. apply Hnext.
    + exec. eexists. split; [reflexivity|]. fields.
      split; [reflexivity|]. split; [discriminate|].
      split; [intros _; reflexivity|]. intros E g. apply Hnext.
  - exec. eexists. split; [reflexivity|]. fields.
    split; [reflexivity|]. split; [intros; rewrite app_nil_r; reflexivity|].
    split; [intros _; reflexivity|]. intros E g. apply Hnext.
Qed.

(** [Reset] of a pool with three handles banked in five slots. *)
Lemma Reset_drains_witness :
  exists w',
    Reset (Some 8%nat)
      (mkWorld (mkPool 5 3 5 (Some [4096; 4112; 4128; 4144; 4160]) (Some 7%nat)) 1 5 [])
    = Done tt w' /\
    self w' = mkPool 0 0 0 None (Some 8%nat) /\
    trace w' = [DestroyDataCall 7%nat 4096; DestroyDataCall 7%nat 4112;
                DestroyDataCall 7%nat 4128].
Proof.
  destruct (Reset_drains
              (mkWorld (mkPool 5 3 5 (Some [4096; 4112; 4128; 4144; 4160]) (Some 7%nat)) 1 5 [])
              (Some 8%nat))
    as (w' & H1 & H2 & H3 & _).
  - closed_wf.
  - exists w'. split; [exact H1|]. split; [exact H2|]. exact (H3 7%nat eq_refl).
Defined.

(** ** When [Borrow] returns null *)

(** C4: on a well-formed pool, with a factory to call when the bank is
    empty, [Borrow] returns; what it returns is null exactly when the bank
    was empty and the [CreateData] call returned null; from a bank that is
    not empty it returns the handle in slot [_size - 1], which is not
    null, and calls no factory. *)
Theorem Borrow_null_iff (E : environment) (w : world) :
  wf (self w) ->
  (_size (self w) = 0 -> _factory (self w) <> None) ->
  exists h w',
    Borrow E w = Done h w' /\
    (h = NULL <->
     _size (self w) = 0 /\
     exists f, _factory (self w) = Some f /\ CreateData E f (creates w) = NULL) /\
    (_size (self w) <> 0 ->
     h <> NULL /\
     banked (self w) !! Z.to_nat (_size (self w) - 1) = Some h /\
     _size (self w') = _size (self w) - 1 /\
     creates w' = creates w /\ trace w' = trace w) /\
    (_size (self w) = 0 ->
     exists f, _factory (self w) = Some f /\ h = CreateData E f (creates w) /\
               trace w' = trace w ++ [CreateDataCall f h]).
Proof.
  intros Hwf Hfac. pose proof Hwf as [Hs Hc Hn Hp Hb].
  unfold size_within_capacity in Hs.
  destruct (Z.eq_dec (_size (self w)) 0) as [Hz|Hnz].
  - destruct (_factory (self w)) as [f|] eqn:Hf; [|exfalso; exact (Hfac Hz eq_refl)].
    eexists _, _. split; [apply (Borrow_empty E w f Hz Hf)|]. fields.
    split; [|split; [intros; contradiction|]].
    + split.
      * intros Hnull. split; [exact Hz|]. exists f. auto.
      * intros (_ & f' & [= <-] & Hnull). exact Hnull.
    + intros _. exists f. auto.
  - destruct (_pool (self w)) as [l|] eqn:Hl; [|lia].
    assert (Hi : (Z.to_nat (_size (self w) - 1) < length l)%nat) by lia.
    destruct (lookup_lt_is_Some_2 l _ Hi) as [h Hh].
    assert (Hbh : banked (self w) !! Z.to_nat (_size (self w) - 1) = Some h)
      by (unfold banked; rewrite Hl, lookup_take_lt by lia; exact Hh).
    assert (Hnn : h <> NULL)
      by (exact (proj1 (Forall_lookup _ _) Hb _ _ Hbh)).
    eexists _, _. split; [apply (Borrow_pop E w l h Hl); [lia|lia|exact Hh]|]. fields.
    split; [|split; [auto|intros; contradiction]].
    split; [intros; contradiction|intros [? _]; contradiction].
Qed.

(** [Borrow] on a new pool, in the environment where nothing fails. *)
Lemma Borrow_null_iff_witness :
  exists h w',
    Borrow generous (fresh (Some 7%nat)) = Done h w' /\
    trace w' = [CreateDataCall 7%nat h].
Proof.
  destruct (Borrow_null_iff generous (fresh (Some 7%nat))) as (h & w' & H1 & _ & _ & H4).
  - closed_wf.
  - intros _. discriminate.
  - destruct (H4 eq_refl) as (f & Hf & _ & Ht). injection Hf as <-.
    exists h, w'. split; [exact H1|exact Ht].
Defined.

(** ** [Return] followed by [Borrow] *)

(** C5 fails on the code: the handle [4112] that the second [Borrow]
    gave is returned to the well-formed pool whose single slot is banked,
    with an allocator that does not fail; [Return] allocates one slot
    again and stores into slot 1 of it, which is outside the buffer, so
    [Return] followed by [Borrow] does not give the handle back: the run
    ends at that store. *)
Theorem Return_Borrow_on_bank_of_one :
  (Reserve generous 1 ;; a <- Borrow generous ;; b <- Borrow generous ;;
   Return generous a ;; ret b) (fresh (Some 7%nat)) = Done 4112 full_of_one /\
  wf (self full_of_one) /\
  4112 <> NULL /\
  malloc_ok generous (mallocs full_of_one) = true /\
  (exists w',
     (Return generous 4112 ;; Borrow generous) full_of_one
     = Fault (OutOfBounds 1 1) w') /\
  (forall r w',
     (Return generous 4112 ;; Borrow generous) full_of_one <> Done r w').
Proof.
  split; [vm_compute; reflexivity|].
  split; [closed_wf|].
  split; [discriminate|].
  split; [reflexivity|].
  split; [eexists; vm_compute; reflexivity|].
  intros r w' H. vm_compute in H. discriminate.
Qed.

(** ** [Return] when the allocator fails *)

(** C6: on a full bank, when the allocation of the larger buffer fails,
    [Return h] of a non-null handle completes having made exactly one
    factory call, [DestroyData h] on the factory of the pool; no field of
    the pool changes, so the bank is the one it was, and a handle that
    was not banked before is not banked afterwards. *)
Theorem Return_alloc_failure (E : environment) (w : world) (h : handle) (f : DataFactory) :
  h <> NULL ->
  _capacity (self w) = _size (self w) ->
  _factory (self w) = Some f ->
  malloc_ok E (mallocs w) = false ->
  exists w',
    Return E h w = Done tt w' /\
    trace w' = trace w ++ [DestroyDataCall f h] /\
    self w' = self w /\
    banked (self w') = banked (self w) /\
    (h ∉ banked (self w) -> h ∉ banked (self w')).
Proof.
  intros Hh Hfull Hf Hm. unfold Return.
  destruct (Z.eqb_spec h NULL) as [|_]; [contradiction|]. exec.
  rewrite Hfull, Z.eqb_refl. exec. rewrite run_malloc, Hm. exec.
  rewrite Hf. cbn [call_DestroyData]. exec.
  eexists. split; [reflexivity|]. fields. auto.
Qed.

(** A full bank of two slots, in the environment where [malloc] fails. *)
Lemma Return_alloc_failure_witness :
  exists w',
    Return exhausted 4128 two_banked = Done tt w' /\
    trace w' = [DestroyDataCall 7%nat 4128] /\
    banked (self w') = [4096; 4112].
Proof.
  destruct (Return_alloc_failure exhausted two_banked 4128 7%nat)
    as (w' & H1 & H2 & _ & H4 & _).
  - discriminate.
  - reflexivity.
  - reflexivity.
  - reflexivity.
  - exists w'. split; [exact H1|]. split; [exact H2|exact H4].
Defined.

(** ** The count of handles created *)

(** C7, as the code has it: along every sequence of [Reserve], [Borrow]
    and [Return] calls that starts with [_ncreated = 0] (a new pool, or
    one that was just reset), wherever the sequence ends, [stat] reports
    as [ncreated] the number of [CreateData] calls made since then that
    returned a handle, reduced modulo [2^32]; as long as that number is
    below [2^32] the two are equal and [_ncreated] after a prefix of the
    sequence is at most [_ncreated] after the whole of it. *)
Theorem ncreated_counts_modulo (E : environment) (ops1 ops2 : list op) (w0 : world) :
  _ncreated (self w0) = 0 ->
  let w1 := final (run_ops E ops1 w0) in
  let w2 := final (run_ops E (ops1 ++ ops2) w0) in
  let made := fun w => successes (trace w) - successes (trace w0) in
  (exists s, stat w2 = Done s w2 /\ ncreated s = wrap (made w2)) /\
  0 <= made w1 <= made w2 /\
  (made w2 < UINT_MOD ->
   _ncreated (self w2) = made w2 /\
   _ncreated (self w1) = made w1 /\
   _ncreated (self w1) <= _ncreated (self w2)).
Proof.
  intros H0 w1 w2 made.
  assert (Hu0 : is_unsigned (_ncreated (self w0))) by (rewrite H0; split; [lia|reflexivity]).
  destruct (keeps_run_ops E ops1 w0) as (d1 & Hd1 & Hs1 & Hn1 & Hu1). fold w1 in Hs1, Hn1, Hu1.
  assert (H12 : accounts w1 w2).
  { subst w1 w2. rewrite run_ops_app, run_bind.
    destruct (run_ops E ops1 w0) as [[] w1|f w1]; cbn [final].
    - apply keeps_run_ops.
    - apply accounts_refl. }
  destruct H12 as (d2 & Hd2 & Hs2 & Hn2 & Hu2).
  specialize (Hu1 Hu0). specialize (Hu2 Hu1).
  rewrite (wrap_small _ Hu1), H0 in Hn1. rewrite (wrap_small _ Hu2) in Hn2.
  assert (Hm1 : made w1 = d1) by (unfold made; lia).
  assert (Hm2 : made w2 = d1 + d2) by (unfold made; lia).
  assert (Hw2 : _ncreated (self w2) = wrap (made w2)).
  { rewrite Hn2, Hn1, Hm2. cbn [Z.add]. apply wrap_add_l. }
  split; [|split].
  - eexists. unfold stat. exec. split; [reflexivity|]. cbn [ncreated]. exact Hw2.
  - lia.
  - intros Hlt. rewrite Hm2 in Hlt.
    assert (Hd1' : _ncreated (self w1) = d1)
      by (rewrite Hn1; cbn [Z.add]; apply wrap_small; split; lia).
    rewrite Hw2, Hd1', Hm1, Hm2. rewrite wrap_small by (split; lia). lia.
Qed.

(** The count after [Reserve 5], a [Borrow], the [Return] of the borrowed
    handle and a [Borrow] on a new pool. *)
Lemma ncreated_counts_modulo_witness :
  _ncreated (self (final (run_ops generous
                            ([OpReserve 5; OpBorrow] ++ [OpReturn 4160; OpBorrow])
                            (fresh (Some 7%nat))))) = 5.
Proof.
  destruct (ncreated_counts_modulo generous [OpReserve 5; OpBorrow]
              [OpReturn 4160; OpBorrow] (fresh (Some 7%nat)) eq_refl) as (_ & _ & H).
  destruct H as (H & _); [vm_compute; reflexivity|].
  rewrite H. vm_compute. reflexivity.
Defined.

(** C7 fails as stated: on a new pool over a factory that always returns
    a handle, after [2^32 - 1] [Borrow]s the count is [2^32 - 1]; after one
    more [Borrow], [2^32] handles have been created and the count is 0. *)
Lemma ncreated_wraps_around :
  exists w1 w2,
    run_ops generous many_borrows (fresh (Some 7%nat)) = Done tt w1 /\
    run_ops generous (many_borrows ++ [OpBorrow]) (fresh (Some 7%nat)) = Done tt w2 /\
    _ncreated (self w1) = 4294967295 /\
    successes (trace w2) = 4294967296 /\
    _ncreated (self w2) = 0 /\
    _ncreated (self w2) <> successes (trace w2) /\
    _ncreated (self w2) < _ncreated (self w1).
Proof.
  assert (Hok : forall j, CreateData generous 7%nat j <> NULL)
    by (intros j; cbn; unfold NULL; lia).
  unfold many_borrows.
  remember (Z.to_nat 4294967295) as k eqn:Hk.
  assert (Hk' : Z.of_nat k = 4294967295) by (subst k; apply Z2Nat.id; lia).
  clear Hk.
  destruct (Borrows_on_empty generous 7%nat k Hok (fresh (Some 7%nat)))
    as (w1 & H1 & Hs1 & Hz1 & Hf1); [reflexivity|reflexivity|].
  destruct (Borrows_on_empty generous 7%nat 1 Hok w1 Hz1 Hf1)
    as (w2 & H2 & Hs2 & Hz2 & Hf2).
  change (replicate 1 OpBorrow) with [OpBorrow] in H2.
  assert (H12 : run_ops generous (replicate k OpBorrow ++ [OpBorrow]) (fresh (Some 7%nat))
                = Done tt w2)
    by (rewrite run_ops_app, run_bind, H1; exact H2).
  pose proof (keeps_run_ops generous (replicate k OpBorrow) (fresh (Some 7%nat))) as A1.
  pose proof (keeps_run_ops generous (replicate k OpBorrow ++ [OpBorrow]) (fresh (Some 7%nat)))
    as A2.
  rewrite H1 in A1. rewrite H12 in A2. cbn [final] in A1, A2.
  destruct A1 as (d1 & _ & Hd1 & Hn1 & Hu1). destruct A2 as (d2 & _ & Hd2 & Hn2 & Hu2).
  assert (Hu0 : is_unsigned (_ncreated (self (fresh (Some 7%nat)))))
    by (split; [cbn; lia|reflexivity]).
  specialize (Hu1 Hu0). specialize (Hu2 Hu0).
  rewrite (wrap_small _ Hu1) in Hn1. rewrite (wrap_small _ Hu2) in Hn2.
  change (successes (trace (fresh (Some 7%nat)))) with 0 in *.
  change (_ncreated (self (fresh (Some 7%nat)))) with 0 in *.
  assert (E1 : d1 = 4294967295) by lia.
  assert (E2 : d2 = 4294967296) by lia.
  subst d1 d2.
  change (wrap (0 + 4294967295)) with 4294967295 in Hn1.
  change (wrap (0 + 4294967296)) with 0 in Hn2.
  exists w1, w2. rewrite Hn1, Hn2.
  repeat split; auto; lia.
Qed.

(** ** The scenario of the specification *)

(** C8: on a pool that has just been constructed over a factory that
    always returns a handle, with memory for the first buffer:
    [Reserve 5] gives [ncreated = 5] and [nfree = 5]; three [Borrow]s then
    give [nfree = 2] and [ncreated = 5]; [Return] of any one of the three
    borrowed handles gives [nfree = 3]; the [Borrow] after it returns that
    handle and gives [nfree = 2]. *)
Theorem scenario_Reserve_5 (E : environment) (f : DataFactory) :
  malloc_ok E 0 = true ->
  (forall j, CreateData E f j <> NULL) ->
  exists w1,
    Reserve E 5 (fresh (Some f)) = Done tt w1 /\
    stat w1 = Done (mkStat 5 5) w1 /\
    exists a b c w2,
      (a <- Borrow E ;; b <- Borrow E ;; c <- Borrow E ;; ret (a, b, c)) w1
      = Done (a, b, c) w2 /\
      stat w2 = Done (mkStat 2 5) w2 /\
      forall h, h ∈ [a; b; c] ->
        exists w3,
          Return E h w2 = Done tt w3 /\
          stat w3 = Done (mkStat 3 5) w3 /\
          exists w4,
            Borrow E w3 = Done h w4 /\
            stat w4 = Done (mkStat 2 5) w4.
Proof.
  intros Hm Hok.
  destruct (Reserve_beyond_capacity E (fresh (Some f)) 5 f)
    as (w1 & HR & Hwf1 & Hsz1 & Hnc1 & Hbk1 & _ & Hcap1);
    [apply wf_new|split; [lia|reflexivity]|reflexivity|exact Hm|exact Hok|reflexivity|].
  assert (Hs1 : _size (self w1) = 5) by (rewrite Hsz1; reflexivity).
  assert (Hn1 : _ncreated (self w1) = 5) by (rewrite Hnc1; reflexivity).
  assert (Hc1 : _capacity (self w1) = 5) by (rewrite Hcap1; reflexivity).
  clear Hsz1 Hnc1 Hcap1.
  exists w1. split; [exact HR|]. split; [unfold stat; exec; rewrite Hs1, Hn1; reflexivity|].
  destruct (Borrow_banked E w1 Hwf1) as (a & wa & Ha & Hwfa & _ & Hsza & Hcapa & Hnca & _);
    [lia|].
  destruct (Borrow_banked E wa Hwfa) as (b & wb & Hb & Hwfb & _ & Hszb & Hcapb & Hncb & _);
    [lia|].
  destruct (Borrow_banked E wb Hwfb) as (c & w2 & Hc & Hwf2 & _ & Hsz2 & Hcap2 & Hnc2 & _);
    [lia|].
  exists a, b, c, w2. split; [exec; rewrite Ha; exec; rewrite Hb; exec; rewrite Hc; exec; reflexivity|].
  assert (Hs2 : _size (self w2) = 2) by lia.
  assert (Hn2 : _ncreated (self w2) = 5) by lia.
  split; [unfold stat; exec; rewrite Hs2, Hn2; reflexivity|].
  intros h Hin.
  assert (Hh : h <> NULL).
  { apply list_elem_of_In in Hin. cbn in Hin.
    pose proof Hwf1 as [_ _ _ _ F1]. pose proof Hwfa as [_ _ _ _ Fa].
    pose proof Hwfb as [_ _ _ _ Fb].
    destruct (Borrow_banked E w1 Hwf1) as (a' & wa' & Ha' & _ & Ba & _); [lia|].
    destruct (Borrow_banked E wa Hwfa) as (b' & wb' & Hb' & _ & Bb & _); [lia|].
    destruct (Borrow_banked E wb Hwfb) as (c' & wc' & Hc' & _ & Bc & _); [lia|].
    rewrite Ha in Ha'. rewrite Hb in Hb'. rewrite Hc in Hc'.
    injection Ha' as <- <-. injection Hb' as <- <-. injection Hc' as <- <-.
    rewrite Ba in F1. rewrite Bb in Fa. rewrite Bc in Fb.
    apply Forall_app in F1 as [_ F1]. apply Forall_app in Fa as [_ Fa].
    apply Forall_app in Fb as [_ Fb].
    destruct Hin as [<-|[<-|[<-|[]]]].
    - exact (Forall_inv F1).
    - exact (Forall_inv Fa).
    - exact (Forall_inv Fb). }
  destruct (Return_room E w2 h Hwf2 Hh) as (w3 & H3 & Hbanks & _); [lia|].
  pose proof Hbanks as (Hsz3 & _ & Hnc3 & _).
  exists w3. split; [exact H3|].
  split; [unfold stat; exec; rewrite Hsz3, Hnc3, Hs2, Hn2; reflexivity|].
  destruct (Borrow_after_banks E w2 w3 h Hwf2 Hbanks) as (w4 & H4 & Hsz4 & _ & _ & Hnc4).
  exists w4. split; [exact H4|].
  unfold stat. exec. rewrite Hsz4, Hnc4, Hs2, Hn2. reflexivity.
Qed.

(** The scenario in the environment where nothing fails. *)
Lemma scenario_Reserve_5_witness :
  exists w1,
    Reserve generous 5 (fresh (Some 7%nat)) = Done tt w1 /\
    stat w1 = Done (mkStat 5 5) w1.
Proof.
  destruct (scenario_Reserve_5 generous 7%nat) as (w1 & H1 & H2 & _).
  - reflexivity.
  - intros j. cbn. unfold NULL. lia.
  - exists w1. split; [exact H1|exact H2].
Defined.

(** ** The growth of the capacity *)

(** C9 fails on the code: for a capacity of one, and for a capacity of
    1431655766 (where [capacity * 3] wraps around), the capacity that
    [Return] picks is one, which is not greater; [Return] on the full bank
    of one slot leaves the capacity at one. *)
Theorem Return_new_cap_of_one :
  Return_new_cap 1 = 1 /\
  Return_new_cap 1431655766 = 1 /\
  ~ 1 < Return_new_cap 1 /\
  exists flt w',
    Return generous 4112 full_of_one = Fault flt w' /\
    _capacity (self full_of_one) = 1 /\ _capacity (self w') = 1.
Proof.
  split; [reflexivity|]. split; [reflexivity|]. split; [vm_compute; discriminate|].
  eexists _, _. split; [vm_compute; reflexivity|]. split; reflexivity.
Qed.

(** ** The factory pointer *)

(** C10: the factory calls are made without a check of the pointer.  The
    factory is null after [Reset] with a null pointer.  With a null
    factory, [Borrow] on an empty bank, [Reserve n] beyond the capacity
    (once it has its buffer) and [Return] on a full bank when the
    allocation fails all call through the null pointer; with a factory
    that is not null, none of the three operations does. *)
Theorem factory_is_not_checked (E : environment) (w : world) :
  wf (self w) ->
  (forall w', Reset None w = Done tt w' ->
              _factory (self w') = None /\
              Borrow E w' = Fault NullFactory w') /\
  (_factory (self w) = None ->
   (_size (self w) = 0 -> Borrow E w = Fault NullFactory w) /\
   (forall n, is_unsigned n -> _capacity (self w) < n ->
              malloc_ok E (mallocs w) = true ->
              exists w', Reserve E n w = Fault NullFactory w') /\
   (forall h, h <> NULL -> _capacity (self w) = _size (self w) ->
              malloc_ok E (mallocs w) = false ->
              exists w', Return E h w = Fault NullFactory w')) /\
  (forall f, _factory (self w) = Some f ->
   (forall w', Borrow E w <> Fault NullFactory w') /\
   (forall n w', Reserve E n w <> Fault NullFactory w') /\
   (forall h w', Return E h w <> Fault NullFactory w')).
Proof.
  assert (Hnull : forall w0 : world,
             _factory (self w0) = None -> _size (self w0) = 0 ->
             Borrow E w0 = Fault NullFactory w0).
  { intros w0 Hf Hz. unfold Borrow. exec. rewrite Hz. cbn [Z.eqb negb].
    unfold Borrow_create. exec. rewrite Hf. reflexivity. }
  intros Hwf. split; [|split].
  - intros w' HR. apply Reset_self in HR.
    split; [rewrite HR; reflexivity|]. apply Hnull; rewrite HR; reflexivity.
  - intros Hf. split; [|split].
    + intros Hz. exact (Hnull w Hf Hz).
    + intros n Hn Hlt Hm.
      destruct (Reserve_grows E n w Hwf Hn Hlt Hm) as (l' & HR & _).
      rewrite HR.
      destruct (Z.to_nat (n - _capacity (self w))) as [|k] eqn:Hk; [lia|].
      cbn [Reserve_loop]. exec. rewrite Hf. cbn [call_CreateData]. exec.
      eexists. reflexivity.
    + intros h Hh Hfull Hm. unfold Return.
      destruct (Z.eqb_spec h NULL) as [|_]; [contradiction|]. exec.
      rewrite Hfull, Z.eqb_refl. exec. rewrite run_malloc, Hm. exec.
      rewrite Hf. cbn [call_DestroyData]. exec. eexists. reflexivity.
  - intros f Hf. split; [|split]; intros.
    + exact (Borrow_no_NullFactory E f w w' Hf).
    + exact (Reserve_no_NullFactory E f n w w' Hf).
    + exact (Return_no_NullFactory E f h w w' Hf).
Qed.

(** [Borrow] on a pool that was constructed with a null factory. *)
Lemma factory_is_not_checked_witness :
  Borrow generous (fresh None) = Fault NullFactory (fresh None).
Proof.
  destruct (factory_is_not_checked generous (fresh None) (wf_new None))
    as (_ & H & _).
  exact (proj1 (H eq_refl) eq_refl).
Defined.

(** * Further properties of the code *)

(** ** [Reserve] when something fails *)

(** X1: when [Reserve n] has to grow the buffer and [malloc] fails, it
    returns having changed no field of the pool and having called no
    factory, whether the factory pointer is null or not. *)
Theorem Reserve_malloc_failure (E : environment) (w : world) (n : Z) :
  _capacity (self w) < n ->
  malloc_ok E (mallocs w) = false ->
  Reserve E n w = Done tt (mkWorld (self w) (S (mallocs w)) (creates w) (trace w)).
Proof.
  intros Hlt Hm. unfold Reserve. exec.
  destruct (Z.geb_spec (_capacity (self w)) n); [lia|]. exec.
  destruct (Z.geb_spec (_capacity (self w)) n); [lia|]. exec.
  rewrite run_malloc, Hm. exec. reflexivity.
Qed.

(** [Reserve 5] on a pool without factory, when there is no memory. *)
Lemma Reserve_malloc_failure_witness :
  Reserve exhausted 5 (fresh None) = Done tt (mkWorld (SimpleDataPool_new None) 1 0 []).
Proof.
  apply (Reserve_malloc_failure exhausted (fresh None) 5).
  - reflexivity.
  - reflexivity.
Defined.

Lemma created_S (E : environment) (f : DataFactory) (c k : nat) :
  created E f c (S k) = CreateData E f c :: created E f (S c) k.
Proof. reflexivity. Qed.

(** The loop of [Reserve], whatever the factory answers: it banks the
    handles returned before the first null, and stops there. *)
Lemma Reserve_loop_leading (E : environment) (f : DataFactory) (k : nat) :
  forall w : world,
    wf (self w) ->
    _factory (self w) = Some f ->
    _size (self w) + Z.of_nat k <= _capacity (self w) ->
    exists w',
      Reserve_loop E k w = Done tt w' /\
      wf (self w') /\
      _size (self w') = _size (self w) + Z.of_nat (leading E f (creates w) k) /\
      _ncreated (self w') =
        wrap (_ncreated (self w) + Z.of_nat (leading E f (creates w) k)) /\
      banked (self w') =
        banked (self w) ++ created E f (creates w) (leading E f (creates w) k) /\
      trace w' =
        trace w ++ map (CreateDataCall f)
                       (created E f (creates w)
                                (Nat.min k (S (leading E f (creates w) k)))) /\
      _capacity (self w') = _capacity (self w) /\
      _factory (self w') = _factory (self w) /\
      mallocs w' = mallocs w.
Proof.
  induction k as [|k IH]; intros w Hwf Hf Hroom.
  - exists w. cbn [Reserve_loop leading Nat.min]. exec. unfold created. cbn [seq map].
    change (Z.of_nat 0) with 0.
    rewrite !app_nil_r, !Z.add_0_r, wrap_small by apply Hwf.
    split; [reflexivity|]. split; [exact Hwf|]. repeat split; auto.
  - cbn [Reserve_loop leading]. exec. rewrite Hf. unfold call_CreateData. exec.
    set (r := CreateData E f (creates w)).
    destruct (Z.eqb_spec r NULL) as [Hr|Hr]; exec.
    + eexists. split; [reflexivity|]. fields.
      change (Z.of_nat 0) with 0. cbn [Nat.min]. rewrite Nat.min_0_r.
      unfold created. cbn [seq map]. fold r.
      rewrite !app_nil_r, !Z.add_0_r, wrap_small by apply Hwf.
      split; [exact Hwf|]. repeat split; auto.
    + unfold ncreated_fetch_add_1. exec.
      set (wi := mkWorld (set_ncreated (wrap (_ncreated (self w) + 1)) (self w))
                         (mallocs w) (S (creates w)) (trace w ++ [CreateDataCall f r])).
      destruct (push_wf wi r)
        as (w1 & H1 & (Hsz & Hbk & Hnc & Hfa & Hcr & Htr & Hwf1) & Hcap & Hma).
      { subst wi. fields. apply created_wf. exact Hwf. }
      { exact Hr. }
      { subst wi. fields. lia. }
      rewrite H1. subst wi. fields_all.
      change (banked (set_ncreated (wrap (_ncreated (self w) + 1)) (self w)))
        with (banked (self w)) in Hbk.
      destruct (IH w1 Hwf1)
        as (w' & HL & Hwf' & Hsz' & Hnc' & Hbk' & Htr' & Hcap' & Hfa' & Hma').
      { rewrite Hfa. exact Hf. }
      { rewrite Hsz, Hcap. lia. }
      exists w'. split; [exact HL|]. split; [exact Hwf'|].
      rewrite Hsz', Hnc', Hbk', Htr', Hcap', Hfa', Hma'.
      rewrite Hsz, Hnc, Hbk, Htr, Hcap, Hfa, Hcr, Hma.
      set (m := leading E f (S (creates w)) k).
      cbn [Nat.min]. rewrite !created_S. fold r. cbn [map].
      rewrite <- !app_assoc. cbn [app].
      replace (Z.of_nat (S m)) with (1 + Z.of_nat m) by lia.
      repeat split; try reflexivity; try lia; try assumption.
      rewrite wrap_add_l. f_equal. lia.
Qed.

(** X2: [Reserve n] beyond the capacity, with memory and a factory: it
    calls [CreateData] until [n - capacity] handles are made or a call
    returns null, whichever comes first; the handles made before that are
    banked in order and counted, the null is not, and no further call is
    made. *)
Theorem Reserve_stops_at_first_failure (E : environment) (w : world) (n : Z)
    (f : DataFactory) :
  wf (self w) ->
  is_unsigned n ->
  _factory (self w) = Some f ->
  malloc_ok E (mallocs w) = true ->
  _capacity (self w) < n ->
  let k := Z.to_nat (n - _capacity (self w)) in
  let m := leading E f (creates w) k in
  exists w',
    Reserve E n w = Done tt w' /\
    (m <= k)%nat /\
    _size (self w') = _size (self w) + Z.of_nat m /\
    _ncreated (self w') = wrap (_ncreated (self w) + Z.of_nat m) /\
    banked (self w') = banked (self w) ++ created E f (creates w) m /\
    trace w' = trace w ++ map (CreateDataCall f)
                              (created E f (creates w) (Nat.min k (S m))) /\
    ((m < k)%nat -> CreateData E f (creates w + m) = NULL) /\
    _capacity (self w') = Reserve_new_cap (_capacity (self w)) n.
Proof.
  intros Hwf Hn Hf Hm Hlt k m.
  destruct (Reserve_grows E n w Hwf Hn Hlt Hm) as (l' & HR & Hwfi & Hbki).
  fold k in HR.
  pose proof Hwf as [Hs _ _ _ _]. unfold size_within_capacity in Hs.
  match type of HR with _ = Reserve_loop _ _ ?x => set (wi := x) in * end.
  destruct (Reserve_loop_leading E f k wi)
    as (w' & HL & Hwf' & Hsz' & Hnc' & Hbk' & Htr' & Hcap' & _).
  { exact Hwfi. }
  { exact Hf. }
  { subst wi k. fields. unfold Reserve_new_cap. lia. }
  exists w'. split; [rewrite HR; exact HL|].
  rewrite Hsz', Hnc', Hbk', Htr', Hcap'. subst wi.
  cbn [self mallocs creates trace]. rewrite Hbki. fields. fold m.
  assert (Hlead : forall c j, (leading E f c j <= j)%nat /\
                    ((leading E f c j < j)%nat ->
                     CreateData E f (c + leading E f c j) = NULL)).
  { intros c j. revert c. induction j as [|j IHj]; intros c; cbn [leading].
    - split; [lia|lia].
    - destruct (Z.eqb_spec (CreateData E f c) NULL) as [Hz|Hnz].
      + split; [lia|]. intros _. rewrite Nat.add_0_r. exact Hz.
      + destruct (IHj (S c)) as [H1 H2]. split; [lia|].
        intros Hlt'. replace (c + S (leading E f (S c) j))%nat
          with (S c + leading E f (S c) j)%nat by lia.
        apply H2. lia. }
  destruct (Hlead (creates w) k) as [Hle Hnull]. fold m in Hle, Hnull.
  repeat split; try reflexivity; assumption.
Qed.

(** [Reserve 5] on a new pool whose factory fails at its third call. *)
Lemma Reserve_stops_at_first_failure_witness :
  exists w',
    Reserve stingy 5 (fresh (Some 7%nat)) = Done tt w' /\
    _size (self w') = 2 /\
    banked (self w') = [4096; 4112] /\
    trace w' = [CreateDataCall 7%nat 4096; CreateDataCall 7%nat 4112;
                CreateDataCall 7%nat NULL].
Proof.
  destruct (Reserve_stops_at_first_failure stingy (fresh (Some 7%nat)) 5 7%nat)
    as (w' & H1 & _ & H2 & _ & H3 & H4 & _).
  - apply wf_new.
  - split; [lia|reflexivity].
  - reflexivity.
  - reflexivity.
  - reflexivity.
  - exists w'. split; [exact H1|]. split; [exact H2|]. split; [exact H3|exact H4].
Defined.

(** X3: once a [Reserve n] has replaced the buffer, a [Reserve m] with
    [m <= n] changes nothing and calls nothing: handles that the factory
    failed to make during the first call are not asked for again. *)
Theorem Reserve_again_is_noop (E : environment) (w w1 : world) (n m : Z) :
  wf (self w) ->
  is_unsigned n ->
  _capacity (self w) < n ->
  malloc_ok E (mallocs w) = true ->
  Reserve E n w = Done tt w1 ->
  m <= n ->
  n <= _capacity (self w1) /\ Reserve E m w1 = Done tt w1.
Proof.
  intros Hwf Hn Hlt Hm HR Hle.
  destruct (Reserve_grows E n w Hwf Hn Hlt Hm) as (l' & HR' & Hwfi & _).
  rewrite HR' in HR. pose proof Hwf as [Hs _ _ _ _]. unfold size_within_capacity in Hs.
  apply Reserve_loop_wf in HR as (_ & Hcap & _); [|exact Hwfi|].
  - fields_all. assert (Hge : n <= _capacity (self w1))
      by (rewrite Hcap; unfold Reserve_new_cap; lia).
    split; [exact Hge|]. apply Reserve_enough. lia.
  - fields. unfold Reserve_new_cap. lia.
Qed.

(** [Reserve 5] twice on a new pool whose factory fails at its third call:
    the second call leaves the two handles banked. *)
Lemma Reserve_again_is_noop_witness :
  Reserve stingy 5 (final (Reserve stingy 5 (fresh (Some 7%nat)))) =
  Done tt (final (Reserve stingy 5 (fresh (Some 7%nat)))).
Proof.
  refine (proj2 (Reserve_again_is_noop stingy (fresh (Some 7%nat)) _ 5 5 _ _ _ _ _ _)).
  - apply wf_new.
  - split; [lia|reflexivity].
  - reflexivity.
  - reflexivity.
  - vm_compute. reflexivity.
  - lia.
Defined.

(** X4: on a well-formed pool with a factory, [Reserve n] always returns,
    whatever [malloc] and [CreateData] answer; the pool is well-formed
    afterwards, the capacity has not shrunk, the handles banked before
    are still banked in the same slots, and the bank holds at most
    [max(size, n)] handles. *)
Theorem Reserve_is_safe (E : environment) (w : world) (n : Z) (f : DataFactory) :
  wf (self w) ->
  is_unsigned n ->
  _factory (self w) = Some f ->
  exists w',
    Reserve E n w = Done tt w' /\
    wf (self w') /\
    _capacity (self w) <= _capacity (self w') /\
    (exists hs, banked (self w') = banked (self w) ++ hs) /\
    _size (self w') <= Z.max (_size (self w)) n /\
    _factory (self w') = Some f.
Proof.
  intros Hwf Hn Hf. pose proof Hwf as [Hs _ _ _ _]. unfold size_within_capacity in Hs.
  destruct (Z_le_gt_dec n (_capacity (self w))) as [Hle|Hgt].
  - exists w. split; [apply Reserve_enough; exact Hle|].
    split; [exact Hwf|]. split; [lia|]. split; [exists []; apply eq_sym, app_nil_r|].
    split; [lia|exact Hf].
  - destruct (malloc_ok E (mallocs w)) eqn:Hm.
    + destruct (Reserve_grows E n w Hwf Hn) as (l' & HR & Hwfi & Hbki); [lia|exact Hm|].
      match type of HR with _ = Reserve_loop _ ?k ?x =>
        destruct (Reserve_loop_leading E f k x)
          as (w' & HL & Hwf' & Hsz' & _ & Hbk' & _ & Hcap' & Hfa' & _)
      end.
      { exact Hwfi. }
      { exact Hf. }
      { fields. unfold Reserve_new_cap. lia. }
      exists w'. split; [rewrite HR; exact HL|]. split; [exact Hwf'|].
      fields_all. rewrite Hcap', Hfa'. split; [unfold Reserve_new_cap; lia|].
      split; [eexists; rewrite Hbk', Hbki; reflexivity|]. split; [|exact Hf].
      rewrite Hsz'.
      assert (Hlead : forall c j, (leading E f c j <= j)%nat).
      { intros c j. revert c. induction j as [|j IHj]; intros c; cbn [leading]; [lia|].
        destruct (_ =? NULL); [lia|]. specialize (IHj (S c)). lia. }
      specialize (Hlead (creates w) (Z.to_nat (n - _capacity (self w)))). lia.
    + eexists. split.
      * unfold Reserve. exec.
        destruct (Z.geb_spec (_capacity (self w)) n); [lia|]. exec.
        destruct (Z.geb_spec (_capacity (self w)) n); [lia|]. exec.
        rewrite run_malloc, Hm. exec. reflexivity.
      * fields. split; [exact Hwf|]. split; [lia|].
        split; [exists []; apply eq_sym, app_nil_r|]. split; [lia|exact Hf].
Qed.

(** [Reserve 130] with one handle banked in 128 slots, over a factory
    that returns one more handle and then null: the buffer is replaced by
    one of 192 slots, the banked handle is kept and one handle is added. *)
Lemma Reserve_is_safe_witness :
  exists w',
    Reserve stingy 130 one_banked = Done tt w' /\
    wf (self w') /\
    _capacity (self one_banked) <= _capacity (self w') /\
    (exists hs, banked (self w') = banked (self one_banked) ++ hs) /\
    _size (self w') <= 130 /\
    mallocs w' = S (mallocs one_banked) /\
    creates w' = S (S (creates one_banked)).
Proof.
  destruct (Reserve_is_safe stingy one_banked 130 7%nat)
    as (w' & H1 & H2 & H3 & H4 & H5 & _).
  - closed_wf.
  - split; [lia|reflexivity].
  - reflexivity.
  - exists w'. split; [exact H1|]. split; [exact H2|]. split; [exact H3|].
    split; [exact H4|]. split; [exact H5|].
    assert (Hw : w' = final (Reserve stingy 130 one_banked)) by (rewrite H1; reflexivity).
    rewrite Hw. split; vm_compute; reflexivity.
Defined.

(** ** Sequences of calls *)

Lemma Return_capacity (E : environment) (h : handle) (w w' : world) :
  wf (self w) -> Return E h w = Done tt w' ->
  _capacity (self w) <= _capacity (self w').
Proof.
  intros Hwf HR. pose proof Hwf as [Hs _ _ _ _]. unfold size_within_capacity in Hs.
  destruct (Z.eq_dec h NULL) as [->|Hh].
  { rewrite Return_null in HR. injection HR as <-. lia. }
  destruct (Z.eq_dec (_capacity (self w)) (_size (self w))) as [Hfull|Hroom].
  - destruct (malloc_ok E (mallocs w)) eqn:Hm.
    + destruct (Z_lt_le_dec (_capacity (self w)) (Return_new_cap (_capacity (self w))))
        as [Hg|Hg].
      * destruct (Return_grow E w h Hwf Hh Hfull Hm Hg) as (w1 & H1 & _ & Hcap & _).
        rewrite H1 in HR. injection HR as <-. lia.
      * destruct (Return_overflow E w h Hwf Hh Hfull Hm Hg) as (i & w1 & H1 & _).
        rewrite H1 in HR. discriminate.
    + destruct (Return_Done_cases E w w' h Hwf Hh HR) as [Hb|(_ & _ & ->)]; [|lia].
      destruct Hb as (Hsz & _ & _ & _ & _ & Htr & _).
      revert HR. unfold Return.
      destruct (Z.eqb_spec h NULL) as [|_]; [contradiction|]. exec.
      rewrite Hfull, Z.eqb_refl. exec. rewrite run_malloc, Hm. exec.
      unfold call_DestroyData. destruct (_factory (self w)); exec; [|discriminate].
      intros [= <-]. fields. lia.
  - destruct (Return_room E w h Hwf Hh) as (w1 & H1 & _ & Hcap & _); [lia|].
    rewrite H1 in HR. injection HR as <-. lia.
Qed.

Lemma Borrow_capacity (E : environment) (h : handle) (w w' : world) :
  wf (self w) -> Borrow E w = Done h w' ->
  _capacity (self w') = _capacity (self w).
Proof.
  intros Hwf HB. destruct (Z.eq_dec (_size (self w)) 0) as [Hz|Hnz].
  - destruct (_factory (self w)) as [f|] eqn:Hf.
    + rewrite (Borrow_empty E w f Hz Hf) in HB. injection HB as _ <-. fields.
      destruct (_ =? NULL); reflexivity.
    + revert HB. unfold Borrow. exec. rewrite Hz. cbn [Z.eqb negb].
      unfold Borrow_create. exec. rewrite Hf. cbn [call_CreateData]. exec. discriminate.
  - destruct (Borrow_banked E w Hwf Hnz) as (h' & w'' & HB' & _ & _ & _ & Hcap & _).
    rewrite HB' in HB. injection HB as _ <-. exact Hcap.
Qed.

Lemma Reserve_capacity (E : environment) (n : Z) (w w' : world) :
  wf (self w) -> is_unsigned n -> Reserve E n w = Done tt w' ->
  _capacity (self w) <= _capacity (self w').
Proof.
  intros Hwf Hn HR. pose proof Hwf as [Hs _ _ _ _]. unfold size_within_capacity in Hs.
  destruct (Z_le_gt_dec n (_capacity (self w))) as [Hle|Hgt].
  - rewrite (Reserve_enough E n w Hle) in HR. injection HR as <-. lia.
  - destruct (malloc_ok E (mallocs w)) eqn:Hm.
    + destruct (Reserve_grows E n w Hwf Hn) as (l' & HR' & Hwfi & _); [lia|exact Hm|].
      rewrite HR' in HR. apply Reserve_loop_wf in HR as (_ & Hcap & _); [|exact Hwfi|].
      * rewrite Hcap. fields. unfold Reserve_new_cap. lia.
      * fields. unfold Reserve_new_cap. lia.
    + revert HR. unfold Reserve. exec.
      destruct (Z.geb_spec (_capacity (self w)) n); [lia|]. exec.
      destruct (Z.geb_spec (_capacity (self w)) n); [lia|]. exec.
      rewrite run_malloc, Hm. exec. intros [= <-]. fields. lia.
Qed.

(** X5: every sequence of [Reserve], [Borrow] and [Return] calls that runs
    to its end on a well-formed pool leaves a well-formed pool, whose
    capacity is not smaller than before, and on which [stat] reports as
    [nfree] the number of handles in the bank. *)
Theorem completed_calls_keep_the_pool (E : environment) (l : list op) :
  Forall (fun o => match o with OpReserve n => is_unsigned n | _ => True end) l ->
  forall w w' : world,
    wf (self w) ->
    run_ops E l w = Done tt w' ->
    wf (self w') /\
    _capacity (self w) <= _capacity (self w') /\
    stat w' = Done (mkStat (Z.of_nat (length (banked (self w')))) (_ncreated (self w'))) w'.
Proof.
  intros Hl w w' Hwf HR.
  assert (Hboth : wf (self w') /\ _capacity (self w) <= _capacity (self w')).
  { revert w Hwf HR. induction Hl as [|o l Ho Hl IH]; intros w Hwf; cbn [run_ops]; exec.
    - intros [= <-]. split; [exact Hwf|lia].
    - destruct (run_op E o w) as [[] w1|flt w1] eqn:Hop; [|discriminate].
      intros HR.
      assert (H1 : wf (self w1) /\ _capacity (self w) <= _capacity (self w1)).
      { destruct o as [n| |data]; cbn [run_op] in Hop.
        - split; [exact (Reserve_wf E n w w1 Hwf Ho Hop)
                 |exact (Reserve_capacity E n w w1 Hwf Ho Hop)].
        - revert Hop. exec.
          destruct (Borrow E w) as [h w2|flt w2] eqn:HB; exec; [|discriminate].
          intros [= <-]. split; [exact (Borrow_wf E h w w2 Hwf HB)|].
          rewrite (Borrow_capacity E h w w2 Hwf HB). lia.
        - split; [exact (Return_wf E data w w1 Hwf Hop)
                 |exact (Return_capacity E data w w1 Hwf Hop)]. }
      destruct H1 as [Hwf1 Hc1]. destruct (IH w1 Hwf1 HR) as [Hwf' Hc']. split; [exact Hwf'|lia]. }
  destruct Hboth as [Hwf' Hc]. split; [exact Hwf'|]. split; [exact Hc|].
  unfold stat. exec. rewrite (length_banked _ Hwf').
  pose proof Hwf' as [Hs _ _ _ _]. unfold size_within_capacity in Hs.
  rewrite Z2Nat.id by lia. reflexivity.
Qed.

(** A new pool after [Reserve 5], a [Borrow], a [Return] and a [Borrow]. *)
Lemma completed_calls_keep_the_pool_witness :
  wf (self (final (run_ops generous [OpReserve 5; OpBorrow; OpReturn 4160; OpBorrow]
                           (fresh (Some 7%nat))))).
Proof.
  refine (proj1 (completed_calls_keep_the_pool generous
                   [OpReserve 5; OpBorrow; OpReturn 4160; OpBorrow] _
                   (fresh (Some 7%nat)) _ _ _)).
  - repeat constructor; vm_compute; congruence.
  - apply wf_new.
  - vm_compute. reflexivity.
Defined.

(** ** What the calls never do *)

Lemma destroyed_app (t1 t2 : list event) :
  destroyed (t1 ++ t2) = destroyed t1 ++ destroyed t2.
Proof.
  induction t1 as [|[f r|f h] t1 IH]; cbn [app destroyed]; [reflexivity|exact IH|].
  rewrite IH. reflexivity.
Qed.

Lemma tame_refl (ds : list handle) (w : world) : tame ds w w.
Proof.
  split; [reflexivity|]. exists []. rewrite app_nil_r.
  split; [reflexivity|]. split; [apply sublist_nil_l|constructor].
Qed.

Lemma tame_trans (ds1 ds2 : list handle) (w1 w2 w3 : world) :
  tame ds1 w1 w2 -> tame ds2 w2 w3 -> tame (ds1 ++ ds2) w1 w3.
Proof.
  intros (Hf1 & t1 & Ht1 & Hs1 & Ha1) (Hf2 & t2 & Ht2 & Hs2 & Ha2).
  split; [congruence|]. exists (t1 ++ t2).
  split; [rewrite Ht2, Ht1, app_assoc; reflexivity|].
  split; [rewrite destroyed_app; apply sublist_app; assumption|].
  apply Forall_app. split; [exact Ha1|]. rewrite Hf1 in Ha2. exact Ha2.
Qed.

Lemma tame_nil_trans (w1 w2 w3 : world) :
  tame [] w1 w2 -> tame [] w2 w3 -> tame [] w1 w3.
Proof. exact (tame_trans [] [] w1 w2 w3). Qed.

Lemma tame_weaken (ds ds' : list handle) (w w' : world) :
  sublist ds ds' -> tame ds w w' -> tame ds' w w'.
Proof.
  intros Hsub (Hf & t & Ht & Hs & Ha). split; [exact Hf|]. exists t.
  split; [exact Ht|]. split; [|exact Ha]. etransitivity; eassumption.
Qed.

(** A world that differs in neither the factory nor the trace. *)
Lemma tame_same (ds : list handle) (w w' : world) :
  _factory (self w') = _factory (self w) -> trace w' = trace w -> tame ds w w'.
Proof.
  intros Hf Ht. split; [exact Hf|]. exists []. rewrite app_nil_r.
  split; [exact Ht|]. split; [apply sublist_nil_l|constructor].
Qed.

Lemma calm_ret {A} (a : A) : obeys (tame []) (ret a).
Proof. intros w. apply tame_refl. Qed.

Lemma calm_abort {A} (f : fault) : obeys (tame []) (@abort A f).
Proof. intros w. apply tame_refl. Qed.

Lemma calm_this : obeys (tame []) this.
Proof. intros w. apply tame_refl. Qed.

Lemma calm_bind {A B} (c : M A) (k : A -> M B) :
  obeys (tame []) c -> (forall a, obeys (tame []) (k a)) -> obeys (tame []) (bind c k).
Proof.
  intros Hc Hk w. rewrite run_bind. specialize (Hc w).
  destruct (c w) as [a w1|f w1]; cbn [final] in *.
  - exact (tame_nil_trans _ _ _ Hc (Hk a w1)).
  - exact Hc.
Qed.

Lemma calm_update (g : SimpleDataPool -> SimpleDataPool) :
  (forall p, _factory (g p) = _factory p) -> obeys (tame []) (update g).
Proof. intros Hg w. apply tame_same; cbn; auto. Qed.

Lemma calm_malloc (E : environment) (slots : Z) : obeys (tame []) (malloc E slots).
Proof. intros w. rewrite run_malloc. apply tame_same; reflexivity. Qed.

Lemma calm_move_slots (new_pool : list handle) (p : SimpleDataPool) :
  obeys (tame []) (move_slots new_pool p).
Proof.
  unfold move_slots, memcpy. destruct (_pool p); [|apply calm_ret].
  destruct (_ <? _); [apply calm_abort|].
  destruct (_ <? _); [apply calm_abort|apply calm_ret].
Qed.

Lemma calm_load (buf : option (list handle)) (i : Z) : obeys (tame []) (load buf i).
Proof.
  unfold load. destruct buf; [|apply calm_abort].
  destruct (_ && _); [|apply calm_abort].
  destruct (_ !! _); [apply calm_ret|apply calm_abort].
Qed.

Lemma calm_push (data : handle) : obeys (tame []) (push data).
Proof.
  unfold push, store. apply calm_bind; [apply calm_this|]. intros p.
  apply calm_bind; [apply calm_update; reflexivity|]. intros _.
  apply calm_bind; [apply calm_this|]. intros p'.
  destruct (_pool p'); [|apply calm_abort].
  destruct (_ && _); [|apply calm_abort].
  apply calm_update. reflexivity.
Qed.

Lemma calm_pop : obeys (tame []) pop.
Proof.
  unfold pop. apply calm_bind; [apply calm_this|]. intros p.
  apply calm_bind; [apply calm_update; reflexivity|]. intros _. apply calm_load.
Qed.

(** A [CreateData] call on the factory of the pool, and what follows it. *)
Lemma calm_create_then {B} (E : environment) (k : handle -> M B) :
  (forall data, obeys (tame []) (k data)) ->
  obeys (tame []) (p <- this ;; data <- call_CreateData E (_factory p) ;; k data).
Proof.
  intros Hk w. exec. unfold call_CreateData.
  destruct (_factory (self w)) as [f|] eqn:Hf; exec; [|apply tame_refl].
  eapply tame_nil_trans; [|apply Hk]. split; [reflexivity|]. fields.
  eexists. split; [reflexivity|]. split; [apply sublist_nil_l|].
  constructor; [exact Hf|constructor].
Qed.

Lemma calm_fetch_add : obeys (tame []) ncreated_fetch_add_1.
Proof. apply calm_update. reflexivity. Qed.

Lemma calm_Reserve_loop (E : environment) (k : nat) : obeys (tame []) (Reserve_loop E k).
Proof.
  induction k as [|k IH]; cbn [Reserve_loop]; [apply calm_ret|].
  apply (calm_create_then E
           (fun data => if data =? NULL then ret tt
                        else (ncreated_fetch_add_1 ;; push data ;; Reserve_loop E k))).
  intros data. destruct (data =? NULL); [apply calm_ret|].
  apply calm_bind; [apply calm_fetch_add|]. intros _.
  apply calm_bind; [apply calm_push|]. intros _. exact IH.
Qed.

Lemma calm_Reserve (E : environment) (n : Z) : obeys (tame []) (Reserve E n).
Proof.
  unfold Reserve. apply calm_bind; [apply calm_this|]. intros p0.
  destruct (_ >=? n); [apply calm_ret|].
  apply calm_bind; [apply calm_this|]. intros p.
  destruct (_ >=? n); [apply calm_ret|].
  apply calm_bind; [apply calm_malloc|]. intros [new_pool|]; [|apply calm_ret].
  apply calm_bind; [apply calm_move_slots|]. intros new_pool'.
  apply calm_bind; [apply calm_update; reflexivity|]. intros _.
  apply calm_bind; [apply calm_update; reflexivity|]. intros _.
  apply calm_Reserve_loop.
Qed.

Lemma calm_Borrow_create (E : environment) : obeys (tame []) (Borrow_create E).
Proof.
  unfold Borrow_create.
  apply (calm_create_then E
           (fun data => (if data =? NULL then ret tt else ncreated_fetch_add_1) ;;
                        ret data)).
  intros data. apply calm_bind; [|intros _; apply calm_ret].
  destruct (data =? NULL); [apply calm_ret|apply calm_fetch_add].
Qed.

Lemma calm_Borrow (E : environment) : obeys (tame []) (Borrow E).
Proof.
  unfold Borrow. apply calm_bind; [apply calm_this|]. intros p0.
  destruct (negb _); [|apply calm_Borrow_create].
  apply calm_bind; [apply calm_this|]. intros p.
  destruct (negb _); [apply calm_pop|apply calm_Borrow_create].
Qed.

(** [Return data] destroys at most [data]. *)
Lemma tame_Return (E : environment) (data : handle) : obeys (tame [data]) (Return E data).
Proof.
  intros w. unfold Return. destruct (data =? NULL); [apply tame_refl|]. exec.
  destruct (_ =? _).
  - exec. rewrite run_malloc. exec.
    set (w1 := mkWorld (self w) (S (mallocs w)) (creates w) (trace w)).
    assert (H01 : tame [] w w1) by (apply tame_same; reflexivity).
    destruct (malloc_ok E (mallocs w)).
    + apply (tame_weaken [] [data]); [apply sublist_nil_l|].
      eapply tame_nil_trans; [exact H01|].
      refine (calm_bind (move_slots _ (self w)) _ (calm_move_slots _ _) _ w1).
      intros new_pool'.
      apply calm_bind; [apply calm_update; reflexivity|]. intros _.
      apply calm_bind; [apply calm_update; reflexivity|]. intros _.
      apply calm_push.
    + unfold call_DestroyData. destruct (_factory (self w)) as [f|] eqn:Hf; exec.
      * split; [reflexivity|]. fields. eexists. split; [reflexivity|].
        split; [reflexivity|]. constructor; [exact Hf|constructor].
      * apply tame_same; reflexivity.
  - apply (tame_weaken [] [data]); [apply sublist_nil_l|]. apply calm_push.
Qed.

Lemma tame_run_ops (E : environment) (l : list op) :
  obeys (tame (returned l)) (run_ops E l).
Proof.
  induction l as [|o l IH]; intros w; cbn [run_ops]; [apply tame_refl|].
  rewrite run_bind.
  assert (Ho : exists ds, tame ds w (final (run_op E o w)) /\
                          returned (o :: l) = ds ++ returned l).
  { destruct o as [n| |data]; cbn [run_op returned].
    - exists []. split; [apply calm_Reserve|reflexivity].
    - exists []. split; [|reflexivity].
      apply (calm_bind (Borrow E) _ (calm_Borrow E)). intros _. apply calm_ret.
    - exists [data]. split; [apply tame_Return|reflexivity]. }
  destruct Ho as (ds & Ho & ->).
  destruct (run_op E o w) as [[] w1|flt w1]; cbn [final] in *.
  - exact (tame_trans _ _ _ _ _ Ho (IH w1)).
  - apply (tame_weaken ds); [apply sublist_inserts_r; reflexivity|exact Ho].
Qed.

(** X6: whatever sequence of [Reserve], [Borrow] and [Return] calls is
    made, and wherever it ends, the factory pointer of the pool is the one
    it was at the start, and every factory call made is made on it. *)
Theorem calls_keep_the_factory (E : environment) (l : list op) (w : world) :
  let w' := final (run_ops E l w) in
  _factory (self w') = _factory (self w) /\
  exists t,
    trace w' = trace w ++ t /\
    forall e, e ∈ t ->
      exists f, _factory (self w) = Some f /\
                match e with
                | CreateDataCall f' _ | DestroyDataCall f' _ => f' = f
                end.
Proof.
  destruct (tame_run_ops E l w) as (Hf & t & Ht & _ & Ha).
  split; [exact Hf|]. exists t. split; [exact Ht|].
  intros e He. pose proof (proj1 (Forall_forall _ _) Ha e He) as H.
  destruct e as [f' r|f' h]; exists f'; auto.
Qed.

(** X7: whatever sequence of [Reserve], [Borrow] and [Return] calls is
    made, and wherever it ends, the handles on which [DestroyData] was
    called are, in order, a sublist of the handles passed to [Return]:
    each [Return] destroys at most its own argument, and a sequence
    without [Return] destroys none. *)
Theorem only_returned_handles_are_destroyed (E : environment) (l : list op) (w : world) :
  exists t,
    trace (final (run_ops E l w)) = trace w ++ t /\
    sublist (destroyed t) (returned l) /\
    (returned l = [] -> destroyed t = []).
Proof.
  destruct (tame_run_ops E l w) as (_ & t & Ht & Hs & _).
  exists t. split; [exact Ht|]. split; [exact Hs|].
  intros Hnil. rewrite Hnil in Hs. apply sublist_nil_r in Hs. exact Hs.
Qed.

(** X8: [Borrow], wherever it ends, calls neither [malloc] nor
    [DestroyData] and leaves the capacity, the buffer and the factory
    pointer as they were; it calls [CreateData] at most once, and only
    when the bank is empty. *)
Theorem Borrow_touches_little (E : environment) (w : world) :
  let w' := final (Borrow E w) in
  _capacity (self w') = _capacity (self w) /\
  _pool (self w') = _pool (self w) /\
  _factory (self w') = _factory (self w) /\
  mallocs w' = mallocs w /\
  ((trace w' = trace w /\ creates w' = creates w) \/
   (exists f, _size (self w) = 0 /\ _factory (self w) = Some f /\
              creates w' = S (creates w) /\
              trace w' = trace w ++ [CreateDataCall f (CreateData E f (creates w))])).
Proof.
  assert (Hc : _size (self w) = 0 ->
    let w' := final (Borrow_create E w) in
    _capacity (self w') = _capacity (self w) /\
    _pool (self w') = _pool (self w) /\
    _factory (self w') = _factory (self w) /\
    mallocs w' = mallocs w /\
    ((trace w' = trace w /\ creates w' = creates w) \/
     (exists f, _size (self w) = 0 /\ _factory (self w) = Some f /\
                creates w' = S (creates w) /\
                trace w' = trace w ++ [CreateDataCall f (CreateData E f (creates w))]))).
  { intros Hz. unfold Borrow_create, call_CreateData, ncreated_fetch_add_1. exec.
    destruct (_factory (self w)) as [f|] eqn:Hf; exec.
    - destruct (_ =? NULL); exec; rewrite ?Hf;
        (repeat (split; [reflexivity|])); right; exists f; auto.
    - rewrite Hf. repeat (split; [reflexivity|]). left. auto. }
  unfold Borrow. exec.
  destruct (Z.eqb_spec (_size (self w)) 0) as [Hz|Hnz]; cbn [negb]; [exact (Hc Hz)|].
  exec. destruct (Z.eqb_spec (_size (self w)) 0) as [Hz|_]; cbn [negb]; [contradiction|].
  unfold pop, load. exec.
  destruct (_pool (self w)) eqn:Hp; exec; rewrite ?Hp;
    [|repeat (split; [reflexivity|]); left; auto].
  destruct (_ && _); exec; rewrite ?Hp; [|repeat (split; [reflexivity|]); left; auto].
  destruct (_ !! _); exec; rewrite ?Hp; repeat (split; [reflexivity|]); left; auto.
Qed.

(** ** The bank is a stack *)

(** [k] [Borrow]s from a bank of at least [k] handles. *)
Lemma Borrow_n_banked (E : environment) (k : nat) :
  forall w : world,
    wf (self w) ->
    Z.of_nat k <= _size (self w) ->
    exists hs w',
      Borrow_n E k w = Done hs w' /\
      wf (self w') /\
      banked (self w) = banked (self w') ++ rev hs /\
      length hs = k /\
      trace w' = trace w /\
      creates w' = creates w /\
      _ncreated (self w') = _ncreated (self w).
Proof.
  induction k as [|k IH]; intros w Hwf Hk.
  - exists [], w. cbn [Borrow_n rev]. exec. rewrite app_nil_r.
    split; [reflexivity|]. split; [exact Hwf|]. repeat split; auto.
  - destruct (Borrow_banked E w Hwf)
      as (h & w1 & HB & Hwf1 & Hbk & Hsz & _ & Hnc & _ & Hcr & Htr & _); [lia|].
    destruct (IH w1 Hwf1) as (hs & w' & HBn & Hwf' & Hbk' & Hlen & Htr' & Hcr' & Hnc');
      [lia|].
    exists (h :: hs), w'. cbn [Borrow_n]. exec. rewrite HB. exec. rewrite HBn. exec.
    split; [reflexivity|]. split; [exact Hwf'|].
    cbn [rev length]. rewrite Hbk, Hbk', <- app_assoc.
    repeat split; try congruence.
Qed.

(** X9: from a bank of at least [k] handles, [k] [Borrow]s in a row return
    the last [k] banked handles, the most recently banked first, leave the
    other handles banked in their slots, and call no factory. *)
Theorem Borrow_n_takes_last_first (E : environment) (k : nat) (w : world) :
  wf (self w) ->
  Z.of_nat k <= _size (self w) ->
  let keep := (Z.to_nat (_size (self w)) - k)%nat in
  exists w',
    Borrow_n E k w = Done (rev (drop keep (banked (self w)))) w' /\
    banked (self w') = take keep (banked (self w)) /\
    trace w' = trace w.
Proof.
  intros Hwf Hk keep.
  destruct (Borrow_n_banked E k w Hwf Hk) as (hs & w' & HB & Hwf' & Hbk & Hlen & Htr & _).
  pose proof (length_banked _ Hwf) as Hl. pose proof (length_banked _ Hwf') as Hl'.
  assert (Hkeep : length (banked (self w')) = keep).
  { subst keep. rewrite <- Hl, Hbk, length_app, length_rev. lia. }
  exists w'. rewrite Hbk, drop_app_length', take_app_length' by (symmetry; exact Hkeep).
  rewrite rev_involutive. auto.
Qed.

(** Three handles banked in five slots: two [Borrow]s. *)
Lemma Borrow_n_takes_last_first_witness :
  exists w',
    Borrow_n generous 2 three_banked = Done [4128; 4112] w' /\
    banked (self w') = [4096].
Proof.
  destruct (Borrow_n_takes_last_first generous 2 three_banked) as (w' & H1 & H2 & _).
  - closed_wf.
  - vm_compute. discriminate.
  - exists w'. split; [exact H1|exact H2].
Defined.

(** [Return] of a list of handles, with an allocator that does not fail. *)
Lemma Return_all_banks (E : environment) (hs : list handle) :
  (forall j, malloc_ok E j = true) ->
  Forall (fun h => h <> NULL) hs ->
  forall w w1 : world,
    wf (self w) ->
    Return_all E hs w = Done tt w1 ->
    wf (self w1) /\
    banked (self w1) = banked (self w) ++ hs /\
    _size (self w1) = _size (self w) + Z.of_nat (length hs) /\
    trace w1 = trace w.
Proof.
  intros Hm Hnn. induction Hnn as [|h hs Hh Hhs IH]; intros w w1 Hwf; cbn [Return_all]; exec.
  - intros [= <-]. rewrite app_nil_r. cbn [length]. split; [exact Hwf|].
    repeat split; auto; lia.
  - destruct (Return E h w) as [[] w0|flt w0] eqn:HR; [|discriminate].
    intros HRs.
    destruct (Return_Done_cases E w w0 h Hwf Hh HR) as [Hb|(_ & Hfail & _)];
      [|rewrite Hm in Hfail; discriminate].
    destruct Hb as (Hsz & Hbk & _ & _ & _ & Htr & Hwf0).
    destruct (IH w0 w1 Hwf0 HRs) as (Hwf1 & Hbk1 & Hsz1 & Htr1).
    split; [exact Hwf1|]. rewrite Hbk1, Hbk, Hsz1, Hsz, Htr1, Htr, <- app_assoc.
    cbn [app length]. repeat split; try reflexivity; lia.
Qed.

(** X10: when a list of non-null handles is returned one by one, with an
    allocator that does not fail, and every [Return] completes, then as
    many [Borrow]s give the handles back in the reverse order, call no
    factory, and leave the bank as it was before the first [Return]. *)
Theorem returned_handles_come_back_reversed (E : environment) (hs : list handle)
    (w w1 : world) :
  wf (self w) ->
  Forall (fun h => h <> NULL) hs ->
  (forall j, malloc_ok E j = true) ->
  Return_all E hs w = Done tt w1 ->
  exists w2,
    Borrow_n E (length hs) w1 = Done (rev hs) w2 /\
    banked (self w2) = banked (self w) /\
    trace w2 = trace w.
Proof.
  intros Hwf Hnn Hm HR.
  destruct (Return_all_banks E hs Hm Hnn w w1 Hwf HR) as (Hwf1 & Hbk1 & Hsz1 & Htr1).
  pose proof Hwf as [Hs _ _ _ _]. unfold size_within_capacity in Hs.
  destruct (Borrow_n_banked E (length hs) w1 Hwf1)
    as (hs' & w2 & HB & Hwf2 & Hbk2 & Hlen & Htr2 & _); [lia|].
  rewrite Hbk1 in Hbk2.
  assert (Heq : banked (self w) = banked (self w2) /\ hs = rev hs').
  { apply app_inj_2; [rewrite length_rev; lia|exact Hbk2]. }
  destruct Heq as [Hb Hh]. exists w2. subst hs.
  rewrite rev_involutive. split; [exact HB|].
  split; [symmetry; exact Hb|congruence].
Qed.

(** Two handles returned to a full bank of two slots, then two [Borrow]s. *)
Lemma returned_handles_come_back_reversed_witness :
  exists w2,
    Borrow_n generous 2 (final (Return_all generous [4128; 4144] two_banked))
    = Done [4144; 4128] w2 /\
    banked (self w2) = [4096; 4112].
Proof.
  destruct (returned_handles_come_back_reversed generous [4128; 4144] two_banked
              (final (Return_all generous [4128; 4144] two_banked)))
    as (w2 & H1 & H2 & _).
  - closed_wf.
  - repeat constructor; discriminate.
  - intros j. reflexivity.
  - vm_compute. reflexivity.
  - exists w2. split; [exact H1|exact H2].
Defined.

(** X11: a bank without duplicates stays without duplicates: the handle
    that [Borrow] takes from it is no longer in it, and the [Return] of a
    handle that is not in it keeps the handles distinct. *)
Theorem bank_stays_without_duplicates (E : environment) (w : world) :
  wf (self w) ->
  NoDup (banked (self w)) ->
  (_size (self w) <> 0 ->
   exists h w',
     Borrow E w = Done h w' /\ (h ∉ banked (self w')) /\ NoDup (banked (self w'))) /\
  (forall h w1,
     h <> NULL -> (h ∉ banked (self w)) ->
     Return E h w = Done tt w1 -> NoDup (banked (self w1))).
Proof.
  intros Hwf Hnd. split.
  - intros Hnz.
    destruct (Borrow_banked E w Hwf Hnz) as (h & w' & HB & _ & Hbk & _).
    rewrite Hbk in Hnd. apply NoDup_app in Hnd as (Hnd' & Hdisj & _).
    exists h, w'. split; [exact HB|]. split; [|exact Hnd'].
    intros Hin. apply (Hdisj h Hin). constructor.
  - intros h w1 Hh Hnin HR.
    destruct (Return_Done_cases E w w1 h Hwf Hh HR) as [Hb|(_ & _ & ->)]; [|exact Hnd].
    destruct Hb as (_ & Hbk & _). rewrite Hbk. apply NoDup_app.
    split; [exact Hnd|]. split; [|apply NoDup_singleton].
    intros x Hx Hx'. apply list_elem_of_singleton in Hx' as ->. contradiction.
Qed.

(** Three distinct handles banked in five slots. *)
Lemma bank_stays_without_duplicates_witness :
  exists h w',
    Borrow generous three_banked = Done h w' /\ (h ∉ banked (self w')).
Proof.
  destruct (bank_stays_without_duplicates generous three_banked) as [H _].
  - closed_wf.
  - apply NoDup_ListNoDup. cbn.
    repeat (constructor; [cbn; intuition discriminate|]). constructor.
  - destruct H as (h & w' & H1 & H2 & _); [vm_compute; discriminate|].
    exists h, w'. split; [exact H1|exact H2].
Defined.

(** ** [Return] on a full bank *)

(** X12: on a full, well-formed bank, with memory at hand, [Return] of a
    non-null handle completes exactly when the capacity is 0 or lies
    between 2 and 1431655765; it then banks the handle behind the others
    in a buffer of 128 slots, respectively of [capacity * 3 / 2] slots.
    For every other capacity it writes outside the buffer it has just
    allocated. *)
Theorem Return_on_full_bank (E : environment) (w : world) (h : handle) :
  wf (self w) ->
  h <> NULL ->
  _capacity (self w) = _size (self w) ->
  malloc_ok E (mallocs w) = true ->
  let c := _capacity (self w) in
  (c = 0 \/ 2 <= c <= 1431655765 ->
   exists w1,
     Return E h w = Done tt w1 /\
     banked (self w1) = banked (self w) ++ [h] /\
     _capacity (self w1) = (if c =? 0 then 128 else c * 3 / 2) /\
     c < _capacity (self w1)) /\
  (~ (c = 0 \/ 2 <= c <= 1431655765) ->
   exists i slots w1,
     Return E h w = Fault (OutOfBounds i slots) w1 /\ slots <= i).
Proof.
  intros Hwf Hh Hfull Hm c.
  assert (Hc : is_unsigned c).
  { destruct Hwf as [Hs Hcap _ _ _]. unfold size_within_capacity in Hs.
    subst c. split; lia. }
  pose proof (Return_new_cap_grows c Hc) as Hiff. split.
  - intros Hrange.
    destruct (Return_grow E w h Hwf Hh Hfull Hm (proj2 Hiff Hrange))
      as (w1 & H1 & (_ & Hbk & _) & Hcap & _).
    exists w1. split; [exact H1|]. split; [exact Hbk|]. rewrite Hcap. fold c.
    split; [|exact (proj2 Hiff Hrange)].
    unfold Return_new_cap. destruct (c =? 0); [reflexivity|].
    rewrite wrap_small; [reflexivity|]. unfold is_unsigned in *.
    rewrite UINT_MOD_value in *. lia.
  - intros Hout.
    destruct (Return_overflow E w h Hwf Hh Hfull Hm) as (i & w1 & H1 & Hi).
    + fold c. destruct (Z_lt_le_dec c (Return_new_cap c)) as [Hlt|Hle]; [|exact Hle].
      exfalso. exact (Hout (proj1 Hiff Hlt)).
    + exists i, (Return_new_cap (_capacity (self w))), w1. split; [exact H1|exact Hi].
Qed.

(** A full bank of two slots grows to three. *)
Lemma Return_on_full_bank_witness :
  exists w1,
    Return generous 4128 two_banked = Done tt w1 /\
    banked (self w1) = [4096; 4112; 4128] /\
    _capacity (self w1) = 3.
Proof.
  destruct (Return_on_full_bank generous two_banked 4128) as [H _].
  - closed_wf.
  - discriminate.
  - reflexivity.
  - reflexivity.
  - destruct H as (w1 & H1 & H2 & H3 & _); [right; vm_compute; split; discriminate|].
    exists w1. split; [exact H1|]. split; [exact H2|exact H3].
Defined.

(** ** [Reset] and the destructor *)

(** X13: after a [Reset] that completed, a second [Reset], or the
    destructor, makes no factory call: no handle is destroyed twice. *)
Theorem Reset_again_destroys_nothing (w w1 : world) (g1 g2 : option DataFactory) :
  Reset g1 w = Done tt w1 ->
  Reset g2 w1 =
    Done tt (mkWorld (SimpleDataPool_new g2) (mallocs w1) (creates w1) (trace w1)) /\
  SimpleDataPool_delete w1 =
    Done tt (mkWorld (SimpleDataPool_new None) (mallocs w1) (creates w1) (trace w1)).
Proof.
  intros HR. apply Reset_self in HR.
  assert (H : forall g, Reset g w1 =
            Done tt (mkWorld (SimpleDataPool_new g) (mallocs w1) (creates w1) (trace w1))).
  { intros g. unfold Reset. exec. rewrite HR. reflexivity. }
  split; [apply H|apply (H None)].
Qed.

(** [Reset] of a pool with three handles banked, then the destructor. *)
Lemma Reset_again_destroys_nothing_witness :
  trace (final (SimpleDataPool_delete (final (Reset (Some 8%nat) three_banked)))) =
  trace (final (Reset (Some 8%nat) three_banked)).
Proof.
  rewrite (proj2 (Reset_again_destroys_nothing three_banked
                    (final (Reset (Some 8%nat) three_banked)) (Some 8%nat) None
                    ltac:(vm_compute; reflexivity))).
  reflexivity.
Defined.

(** X14: a pool that is constructed, filled by [Reserve n] and destroyed,
    with memory for the buffer and a factory that always returns a
    handle, has made [n] [CreateData] calls and then [DestroyData] on the
    same handles in the same order: nothing that the pool created and still
    holds is leaked. *)
Theorem Reserve_then_delete_balances (E : environment) (f : DataFactory) (n : Z) :
  is_unsigned n ->
  malloc_ok E 0 = true ->
  (forall j, CreateData E f j <> NULL) ->
  exists w',
    (Reserve E n ;; SimpleDataPool_delete) (fresh (Some f)) = Done tt w' /\
    self w' = SimpleDataPool_new None /\
    trace w' = map (CreateDataCall f) (created E f 0 (Z.to_nat n)) ++
               map (DestroyDataCall f) (created E f 0 (Z.to_nat n)).
Proof.
  intros Hn Hm Hok. exec.
  destruct (Z.eq_dec n 0) as [->|Hnz].
  - rewrite Reserve_enough by (cbn; lia). exec.
    unfold SimpleDataPool_delete, Reset. exec.
    eexists. split; [reflexivity|]. split; reflexivity.
  - destruct (Reserve_beyond_capacity E (fresh (Some f)) n f)
      as (w1 & HR & Hwf1 & Hsz & _ & Hbk & Htr & Hcap);
      [apply wf_new|exact Hn|reflexivity|exact Hm|exact Hok|cbn; unfold is_unsigned in Hn; lia|].
    rewrite HR. exec. cbn in Hsz, Hbk, Htr. rewrite Z.sub_0_r in *.
    assert (Hfa : _factory (self w1) = Some f).
    { destruct (calm_Reserve E n (fresh (Some f))) as [Hfa _].
      rewrite HR in Hfa. exact Hfa. }
    pose proof Hwf1 as [Hs1 _ _ Hp1 _]. unfold size_within_capacity in Hs1.
    unfold SimpleDataPool_delete, Reset. exec.
    destruct (_pool (self w1)) as [l|] eqn:Hl; [|unfold is_unsigned in Hn; lia].
    rewrite Hfa. rewrite Reset_loop_from_0 by lia. fields.
    eexists. split; [reflexivity|]. fields. split; [reflexivity|].
    rewrite Htr. f_equal. f_equal. rewrite <- Hbk. unfold banked. rewrite Hl. reflexivity.
Qed.

(** A pool constructed, filled with three handles and destroyed. *)
Lemma Reserve_then_delete_balances_witness :
  exists w',
    (Reserve generous 3 ;; SimpleDataPool_delete) (fresh (Some 7%nat)) = Done tt w' /\
    trace w' = [CreateDataCall 7%nat 4096; CreateDataCall 7%nat 4112;
                CreateDataCall 7%nat 4128; DestroyDataCall 7%nat 4096;
                DestroyDataCall 7%nat 4112; DestroyDataCall 7%nat 4128].
Proof.
  destruct (Reserve_then_delete_balances generous 7%nat 3) as (w' & H1 & _ & H2).
  - split; [lia|reflexivity].
  - reflexivity.
  - intros j. cbn. unfold NULL. lia.
  - exists w'. split; [exact H1|exact H2].
Defined.

(** ** [Borrow] followed by [Return] *)

(** X15: on a well-formed pool whose bank is not empty, a [Borrow]
    followed by the [Return] of the handle it gave leaves everything as it was:
    the handle is back in its slot, and neither [malloc] nor the factory
    was called. *)
Theorem Borrow_Return_restores (E : environment) (w : world) :
  wf (self w) ->
  _size (self w) <> 0 ->
  (h <- Borrow E ;; Return E h) w = Done tt w.
Proof.
  intros Hwf Hnz. pose proof Hwf as [Hs Hc Hn Hp Hb].
  unfold size_within_capacity in Hs.
  destruct (_pool (self w)) as [l|] eqn:Hl; [|lia].
  assert (Hi : (Z.to_nat (_size (self w) - 1) < length l)%nat) by lia.
  destruct (lookup_lt_is_Some_2 l _ Hi) as [h Hh].
  assert (Hnn : h <> NULL).
  { refine (proj1 (Forall_lookup _ _) Hb (Z.to_nat (_size (self w) - 1)) h _).
    unfold banked. rewrite Hl, lookup_take_lt by lia. exact Hh. }
  exec. rewrite (Borrow_pop E w l h Hl) by (lia || exact Hh). exec.
  unfold Return. destruct (Z.eqb_spec h NULL) as [|_]; [contradiction|]. exec.
  destruct (Z.eqb_spec (_capacity (self w)) (_size (self w) - 1)) as [|_]; [lia|].
  rewrite (push_in_bounds h _ l) by (fields; (exact Hl || lia)). fields.
  replace (_size (self w) - 1 + 1) with (_size (self w)) by lia.
  rewrite wrap_small by range. rewrite list_insert_id by exact Hh. rewrite <- Hl.
  destruct w as [[c s nc p fa] m cr t]. reflexivity.
Qed.

(** Three handles banked in five slots: the last one taken and put back. *)
Lemma Borrow_Return_restores_witness :
  (h <- Borrow generous ;; Return generous h) three_banked = Done tt three_banked.
Proof.
  apply (Borrow_Return_restores generous three_banked).
  - closed_wf.
  - vm_compute. discriminate.
Defined.


(** ** [Return] followed by [Borrow] *)

(** X16: on a well-formed pool whose bank has a free slot, or is full with
    memory at hand and a capacity of 0 or between 2 and 1431655765,
    [Return] of a non-null handle completes and the [Borrow] that follows
    it returns that handle, calls no factory, and leaves the bank as it
    was before the [Return]. *)
Theorem Return_then_Borrow_gives_back (E : environment) (w : world) (h : handle) :
  wf (self w) ->
  h <> NULL ->
  (_capacity (self w) = _size (self w) ->
   malloc_ok E (mallocs w) = true /\
   (_capacity (self w) = 0 \/ 2 <= _capacity (self w) <= 1431655765)) ->
  exists w1 w2,
    Return E h w = Done tt w1 /\
    Borrow E w1 = Done h w2 /\
    _size (self w2) = _size (self w) /\
    banked (self w2) = banked (self w) /\
    trace w2 = trace w.
Proof.
  intros Hwf Hh Hfull. pose proof Hwf as [Hs Hc _ _ _].
  unfold size_within_capacity in Hs.
  assert (Hb : exists w1, Return E h w = Done tt w1 /\ banks w h w1).
  { destruct (Z.eq_dec (_capacity (self w)) (_size (self w))) as [Heq|Hne].
    - destruct (Hfull Heq) as [Hm Hrange].
      assert (Hu : is_unsigned (_capacity (self w))) by (split; lia).
      destruct (Return_grow E w h Hwf Hh Heq Hm
                  (proj2 (Return_new_cap_grows _ Hu) Hrange)) as (w1 & H1 & H2 & _).
      exists w1. auto.
    - destruct (Return_room E w h Hwf Hh) as (w1 & H1 & H2 & _); [lia|].
      exists w1. auto. }
  destruct Hb as (w1 & HR & Hb).
  destruct (Borrow_after_banks E w w1 h Hwf Hb) as (w2 & H1 & H2 & H3 & H4 & _).
  exists w1, w2. auto.
Qed.

(** A full bank of two slots: [Return] moves it to three slots, and the
    [Borrow] after it gives the handle back. *)
Lemma Return_then_Borrow_gives_back_witness :
  exists w1 w2,
    Return generous 4128 two_banked = Done tt w1 /\
    Borrow generous w1 = Done 4128 w2 /\
    banked (self w2) = [4096; 4112].
Proof.
  destruct (Return_then_Borrow_gives_back generous two_banked 4128)
    as (w1 & w2 & H1 & H2 & _ & H3 & _).
  - closed_wf.
  - discriminate.
  - intros _. split; [reflexivity|]. right. vm_compute. split; discriminate.
  - exists w1, w2. split; [exact H1|]. split; [exact H2|exact H3].
Defined.
